(** * Fitbit OAuth helper: session registry, callback handlers and JSON stores

    A shallow embedding of [fitbit_auth_gui.py]: the module-level state
    ([_active_sessions], [_state_to_client], the log queue, the two JSON
    files) becomes a [world] record threaded through a small state and
    exception monad, and the functions of the module become monadic
    definitions with the names they have in the source.

    Every function runs to completion before the next one starts: the
    properties below speak of sequences of calls, so the three locks of the
    module do not appear.

    A Python [str] is represented by its UTF-8 encoding, one [ascii] per
    byte, and [request.args] is a finite map from a parameter name to the
    value [request.args.get] returns for it. *)

From Stdlib Require Import ZArith NArith Floats Ascii String Lia.
From stdpp Require Import gmap strings list fin_maps.

#[local] Set Warnings "-register-all".
#[local] Open Scope string_scope.

(** ** JSON values

    What [json.load] returns and [json.dumps] accepts: [None], [bool], [int],
    [float], [str], [list] and [dict] with string keys. *)

Inductive json : Type :=
| JNull
| JBool (b : bool)
| JInt (n : Z)
| JFloat (x : float)
| JStr (s : string)
| JArr (items : list json)
| JObj (fields : gmap string json).

(** [v == s] for a JSON value [v] and a Python [str] [s]: only a string
    equal to [s] compares equal. *)
Definition json_eq_str (v : json) (s : string) : bool :=
  match v with
  | JStr s' => bool_decide (s' = s)
  | _ => false
  end.

(** [d.get(k) == s] where a missing key gives [None]. *)
Definition get_eq_str (d : gmap string json) (k s : string) : bool :=
  match d !! k with
  | Some v => json_eq_str v s
  | None => false
  end.

(** ** Files

    A file is seen through [Path.exists] and [json.load]: it is absent; or it
    exists and [json.load] raises [JSONDecodeError]; or it exists and
    [json.load] returns a value; or it exists and [json.load] raises another
    exception: [UnicodeDecodeError] when its bytes are not UTF-8,
    [ValueError] when it holds an integer literal longer than the
    interpreter's limit of 4300 digits, [RecursionError] when its brackets
    are nested too deep. [write_text(json.dumps(v))] leaves a file on which
    [json.load] returns [v]. Failures of the file system itself ([OSError])
    are not part of the model. *)

Inductive load_failure : Type :=
| NotUtf8
| IntegerTooLong
| NestingTooDeep.

Inductive file : Type :=
| Absent
| Corrupt
| Holds (v : json)
| Unloadable (why : load_failure).

(** ** Observable effects and the world *)

Inductive log_event : Type :=
| LogEvent (event_type message : string).

Inductive effect : Type :=
| OpenBrowser (url : string)
| FetchToken (client_id : string) (client_secret : option string)
             (state authorization_response : string).

Record world : Type := World {
  gui_log_queue : option (list log_event);
  active_sessions : gmap string (gmap string string);
  state_to_client : gmap string string;
  credentials_file : file;
  tokens_file : file;
  effects : list effect
}.

Definition set_gui_log_queue (q : option (list log_event)) (w : world) : world :=
  World q (active_sessions w) (state_to_client w)
        (credentials_file w) (tokens_file w) (effects w).

Definition set_active_sessions (s : gmap string (gmap string string)) (w : world) : world :=
  World (gui_log_queue w) s (state_to_client w)
        (credentials_file w) (tokens_file w) (effects w).

Definition set_state_to_client (m : gmap string string) (w : world) : world :=
  World (gui_log_queue w) (active_sessions w) m
        (credentials_file w) (tokens_file w) (effects w).

Definition set_credentials_file (f : file) (w : world) : world :=
  World (gui_log_queue w) (active_sessions w) (state_to_client w)
        f (tokens_file w) (effects w).

Definition set_tokens_file (f : file) (w : world) : world :=
  World (gui_log_queue w) (active_sessions w) (state_to_client w)
        (credentials_file w) f (effects w).

Definition add_effect (e : effect) (w : world) : world :=
  World (gui_log_queue w) (active_sessions w) (state_to_client w)
        (credentials_file w) (tokens_file w) (effects w ++ [e])%list.

(** The interpreter state when the module has just been imported and no file
    has been written yet. *)
Definition initial_world : world :=
  World None ∅ ∅ Absent Absent [].

(** ** The monad: state passing with Python exceptions *)

Inductive exn : Type :=
| TypeError
| AttributeError
| UnicodeDecodeError
| ValueError
| RecursionError.

Inductive outcome (A : Type) : Type :=
| Ret (a : A)
| Raise (e : exn).
Arguments Ret {A} a.
Arguments Raise {A} e.

Definition M (A : Type) : Type := world → outcome A * world.

Definition raise {A} (e : exn) : M A := λ w, (Raise e, w).

Definition gets {A} (f : world → A) : M A := λ w, (Ret (f w), w).

Definition modify (f : world → world) : M unit := λ w, (Ret tt, f w).

#[global] Instance M_ret : MRet M := λ A a w, (Ret a, w).

#[global] Instance M_bind : MBind M := λ A B k m w,
  match m w with
  | (Ret a, w') => k a w'
  | (Raise e, w') => (Raise e, w')
  end.

(** The two files the module knows. *)
Inductive path : Type :=
| CREDENTIALS_FILE
| TOKENS_FILE.

Definition read_file (p : path) (w : world) : file :=
  match p with
  | CREDENTIALS_FILE => credentials_file w
  | TOKENS_FILE => tokens_file w
  end.

Definition write_json (p : path) (v : json) : M unit :=
  modify (match p with
          | CREDENTIALS_FILE => set_credentials_file (Holds v)
          | TOKENS_FILE => set_tokens_file (Holds v)
          end).

(** ** [ensure_json_file]

    Only [JSONDecodeError] is caught around [json.load]: any other exception
    leaves the function, and the file stays as it was. *)

Definition load_exception (why : load_failure) : exn :=
  match why with
  | NotUtf8 => UnicodeDecodeError
  | IntegerTooLong => ValueError
  | NestingTooDeep => RecursionError
  end.

Definition ensure_json_file (p : path) (default : json) : M json :=
  f ← gets (read_file p);
  match f with
  | Absent => write_json p default ;; mret default
  | Holds v => mret v
  | Corrupt => write_json p default ;; mret default
  | Unloadable why => raise (load_exception why)
  end.

(** ** [set_log_queue] and [emit_log] *)

Definition set_log_queue (log_queue : list log_event) : M unit :=
  modify (set_gui_log_queue (Some log_queue)).

Definition emit_log (message : string) (status : bool) : M unit :=
  modify (λ w,
    match gui_log_queue w with
    | None => w
    | Some q =>
        let event_type := if status then "status" else "log" in
        set_gui_log_queue (Some (q ++ [LogEvent event_type message])%list) w
    end).

(** ** [save_credentials]

    The [for ... else] loop over the loaded list: the first entry whose
    ["client_id"] equals [client_id] gets its ["client_secret"] replaced and
    the loop stops; when no entry matches, a new record is appended. An entry
    that is not a [dict] has no [get] and raises [AttributeError]. *)

Fixpoint save_credentials_loop (client_id client_secret : string)
    (data : list json) : outcome (list json) :=
  match data with
  | [] =>
      Ret [JObj {[ "client_id" := JStr client_id;
                   "client_secret" := JStr client_secret ]}]
  | JObj entry :: rest =>
      if get_eq_str entry "client_id" client_id
      then Ret (JObj (<["client_secret" := JStr client_secret]> entry) :: rest)
      else match save_credentials_loop client_id client_secret rest with
           | Ret rest' => Ret (JObj entry :: rest')
           | Raise e => Raise e
           end
  | _ :: _ => Raise AttributeError
  end.

(** What the loop does on each kind of loaded document: a [dict] or a [str]
    is iterable but ends in [AttributeError] (on [entry.get] or on
    [data.append]); a scalar is not iterable. *)
Definition save_credentials_update (client_id client_secret : string)
    (data : json) : outcome json :=
  match data with
  | JArr entries =>
      match save_credentials_loop client_id client_secret entries with
      | Ret entries' => Ret (JArr entries')
      | Raise e => Raise e
      end
  | JObj _ | JStr _ => Raise AttributeError
  | JNull | JBool _ | JInt _ | JFloat _ => Raise TypeError
  end.

Definition lift_outcome {A} (o : outcome A) : M A := λ w, (o, w).

Definition save_credentials (client_id client_secret : string) : M unit :=
  data ← ensure_json_file CREDENTIALS_FILE (JArr []);
  data' ← lift_outcome (save_credentials_update client_id client_secret data);
  write_json CREDENTIALS_FILE data'.

(** ** [load_tokens] and [save_token] *)

Definition load_tokens : M json :=
  ensure_json_file TOKENS_FILE (JObj ∅).

(** [tokens[client_id] = token]: only a [dict] supports assignment under a
    string key. *)
Definition set_item (tokens : json) (client_id : string) (token : json) : outcome json :=
  match tokens with
  | JObj fields => Ret (JObj (<[client_id := token]> fields))
  | _ => Raise TypeError
  end.

Definition save_token (client_id : string) (token : json) : M unit :=
  tokens ← ensure_json_file TOKENS_FILE (JObj ∅);
  tokens' ← lift_outcome (set_item tokens client_id token);
  write_json TOKENS_FILE tokens'.

(** ** [register_session] *)

(** [[key for key, value in _state_to_client.items() if value == client_id]] *)
Definition stale_states (client_id : string) (index : gmap string string) : list string :=
  (filter (λ kv, kv.2 = client_id) (map_to_list index)).*1.

(** [for state in stale_states: _state_to_client.pop(state, None)] *)
Definition pop_states (states : list string) (index : gmap string string) : gmap string string :=
  foldl (λ m state, delete state m) index states.

Definition register_session (client_id client_secret : string) : M unit :=
  modify (λ w,
    set_active_sessions (<[client_id := {[ "secret" := client_secret ]}]> (active_sessions w)) w) ;;
  stale ← gets (λ w, stale_states client_id (state_to_client w));
  modify (λ w, set_state_to_client (pop_states stale (state_to_client w)) w).

(** ** Strings: [str.strip] and truthiness *)

(** [str.isspace] on a code point: the ASCII controls 9 to 13 and 28 to 31,
    the space, and the Unicode characters U+0085, U+00A0, U+1680, U+2000 to
    U+200A, U+2028, U+2029, U+202F, U+205F and U+3000. *)
Definition isspace (code : N) : bool :=
  (((9 <=? code) && (code <=? 13)) || ((28 <=? code) && (code <=? 32))
   || (code =? 133) || (code =? 160) || (code =? 5760)
   || ((8192 <=? code) && (code <=? 8202))
   || (code =? 8232) || (code =? 8233) || (code =? 8239) || (code =? 8287)
   || (code =? 12288))%N.

(** A continuation byte of a UTF-8 sequence. *)
Definition continuation (c : ascii) : bool :=
  ((128 <=? N_of_ascii c) && (N_of_ascii c <? 192))%N.

(** The number of bytes of the first character of [s] when that character is
    whitespace, and [0] when it is not (or [s] is empty). Whitespace takes
    one, two or three bytes; no character of four bytes is whitespace. *)
Definition space_width (s : string) : nat :=
  match s with
  | String c1 rest1 =>
      let b1 := N_of_ascii c1 in
      if (b1 <? 128)%N then (if isspace b1 then 1 else 0)%nat
      else
        match rest1 with
        | String c2 rest2 =>
            let b2 := N_of_ascii c2 in
            if ((192 <=? b1) && (b1 <? 224))%N then
              let code := ((b1 - 192) * 64 + (b2 - 128))%N in
              if continuation c2 && (128 <=? code)%N && isspace code
              then 2%nat else 0%nat
            else if ((224 <=? b1) && (b1 <? 240))%N then
              match rest2 with
              | String c3 _ =>
                  let code :=
                    (((b1 - 224) * 64 + (b2 - 128)) * 64 + (N_of_ascii c3 - 128))%N in
                  if continuation c2 && continuation c3 && (2048 <=? code)%N
                     && isspace code
                  then 3%nat else 0%nat
              | EmptyString => 0%nat
              end
            else 0%nat
        | EmptyString => 0%nat
        end
  | EmptyString => 0%nat
  end.

(** [s] without its first character, when that character is whitespace. *)
Definition after_space (s : string) : option string :=
  match space_width s, s with
  | 1%nat, String _ rest => Some rest
  | 2%nat, String _ (String _ rest) => Some rest
  | 3%nat, String _ (String _ (String _ rest)) => Some rest
  | _, _ => None
  end.

Fixpoint lstrip (s : string) : string :=
  match space_width s, s with
  | 1%nat, String _ rest => lstrip rest
  | 2%nat, String _ (String _ rest) => lstrip rest
  | 3%nat, String _ (String _ (String _ rest)) => lstrip rest
  | _, _ => s
  end.

(** A string of whitespace only (the empty string included). *)
Fixpoint all_space (s : string) : bool :=
  match s with
  | EmptyString => true
  | _ =>
      match space_width s, s with
      | 1%nat, String _ rest => all_space rest
      | 2%nat, String _ (String _ rest) => all_space rest
      | 3%nat, String _ (String _ (String _ rest)) => all_space rest
      | _, _ => false
      end
  end.

(** The longest suffix of whitespace goes. *)
Fixpoint rstrip (s : string) : string :=
  match s with
  | EmptyString => EmptyString
  | String c rest => if all_space s then EmptyString else String c (rstrip rest)
  end.

Definition strip (s : string) : string := rstrip (lstrip s).

(** A [str] is falsy exactly when it is empty. *)
Definition truthy (s : string) : bool := negb (bool_decide (s = "")).

(** An [Optional[str]] is falsy when it is [None] or empty. *)
Definition truthy_opt (o : option string) : bool :=
  match o with
  | Some s => truthy s
  | None => false
  end.

(** A [dict] is falsy exactly when it is empty. *)
Definition truthy_dict (d : gmap string string) : bool := negb (bool_decide (d = ∅)).

(** ** HTTP responses *)

Inductive body : Type :=
| Json (v : json)
| Html (text : string).

Record response : Type := Response {
  response_body : body;
  status : nat
}.

(** [jsonify({key: value})] *)
Definition jsonify (key value : string) : body :=
  Json (JObj {[ key := JStr value ]}).

(** ** [auth_route]

    [args] is [request.args]; [authorization_url] stands for
    [OAuth2Session(client_id, ...).authorization_url(AUTHORIZATION_BASE_URL)],
    which returns the URL to open and the state token it generated.

    [session_info] is the dictionary stored under [client_id], not a copy:
    writing its ["state"] key changes the entry of [_active_sessions]. *)

Definition auth_route (args : gmap string string)
    (authorization_url : string → string * string) : M response :=
  let client_id := strip (default "" (args !! "client_id")) in
  if negb (truthy client_id) then
    emit_log "Solicitud de /auth sin client_id." false ;;
    mret (Response (jsonify "error" "Falta el client_id.") 400)
  else
    session_info ← gets (λ w, active_sessions w !! client_id);
    match session_info with
    | Some info =>
        if truthy_dict info then
          let '(url, state) := authorization_url client_id in
          modify (λ w, set_active_sessions
                         (<[client_id := <["state" := state]> info]> (active_sessions w)) w) ;;
          modify (λ w, set_state_to_client
                         (<[state := client_id]> (state_to_client w)) w) ;;
          modify (add_effect (OpenBrowser url)) ;;
          emit_log ("Abriendo navegador para autorizar la app " ++ client_id ++ "...") false ;;
          mret (Response (jsonify "message" "Autorización iniciada. Revisa el navegador.") 200)
        else
          let message := "Client ID no registrado. Inicia la autenticación desde la aplicación." in
          emit_log message false ;;
          mret (Response (jsonify "error" message) 400)
    | None =>
        let message := "Client ID no registrado. Inicia la autenticación desde la aplicación." in
        emit_log message false ;;
        mret (Response (jsonify "error" message) 400)
    end.

(** ** [callback_route] *)

(** What [oauth.fetch_token] does: it returns the token, or raises. *)
Inductive fetch_result : Type :=
| Token (token : json)
| FetchError (exc : string).

(** The token endpoint, as the handler sees it: client id, client secret,
    state and the full callback URL go in, a token or an exception comes
    out. *)
Definition token_endpoint : Type :=
  string → option string → string → string → fetch_result.

Definition fetch_token (endpoint : token_endpoint) (client_id : string)
    (client_secret : option string) (state authorization_response : string)
    : M fetch_result :=
  modify (add_effect (FetchToken client_id client_secret state authorization_response)) ;;
  mret (endpoint client_id client_secret state authorization_response).

(** Lines 210 to 212, under [_sessions_lock]:
    [client_id = _state_to_client.pop(state, None)] and
    [session_info = _active_sessions.get(client_id) if client_id else None]. *)
Definition pop_state (state : string)
    : M (option string * option (gmap string string)) :=
  client_id ← gets (λ w, state_to_client w !! state);
  modify (λ w, set_state_to_client (delete state (state_to_client w)) w) ;;
  session_info ← gets (λ w,
    match client_id with
    | Some c => if truthy c then active_sessions w !! c else None
    | None => None
    end);
  mret (client_id, session_info).

(** [a or b] on an optional string and a string. *)
Definition or_else (a : option string) (b : string) : string :=
  match a with
  | Some s => if truthy s then s else b
  | None => b
  end.

Definition session_not_found_page : string :=
  "<html><body><h1>Sesión no encontrada</h1><p>Inicia la autenticación desde la "
  ++ "aplicación nuevamente.</p></body></html>".

Definition session_not_found : M response :=
  emit_log "No se encontró la sesión asociada a la respuesta de Fitbit." false ;;
  mret (Response (Html session_not_found_page) 400).

Definition missing_state_page : string :=
  "<html><body><h1>Respuesta inválida</h1><p>No se recibió el parámetro state.</p>"
  ++ "</body></html>".

(** [if not state:], for a missing and for an empty [state] parameter. *)
Definition missing_state : M response :=
  emit_log "Respuesta de Fitbit sin parámetro state." false ;;
  mret (Response (Html missing_state_page) 400).

Definition exchange_failed_page : string :=
  "<html><body><h1>Autenticación fallida</h1><p>No se pudo obtener el token."
  ++ "</p></body></html>".

Definition completed_page : string :=
  "<html><body><h1>Autenticación completada</h1><p>Ya puedes cerrar esta ventana."
  ++ "</p></body></html>".

Definition callback_route (args : gmap string string) (url : string)
    (endpoint : token_endpoint) : M response :=
  match args !! "error" with
  | Some error =>
      let error_description := or_else (args !! "error_description") error in
      emit_log ("Error devuelto por Fitbit: " ++ error_description) false ;;
      mret (Response (Html ("<html><body><h1>Autenticación fallida</h1><p>"
                            ++ error_description ++ "</p></body></html>")) 400)
  | None =>
      match args !! "state" with
      | Some state =>
          if negb (truthy state) then missing_state
          else
            '(client_id, session_info) ← pop_state state;
            match client_id, session_info with
            | Some client_id, Some session_info =>
                if negb (truthy client_id) || negb (truthy_dict session_info)
                then session_not_found
                else
                  let client_secret := session_info !! "secret" in
                  fetched ← fetch_token endpoint client_id client_secret state url;
                  match fetched with
                  | FetchError exc =>
                      emit_log ("Error al obtener el token: " ++ exc) false ;;
                      mret (Response (Html exchange_failed_page) 500)
                  | Token token =>
                      save_token client_id token ;;
                      emit_log ("Autenticación exitosa para " ++ client_id ++ ".") true ;;
                      modify (λ w, set_active_sessions (delete client_id (active_sessions w)) w) ;;
                      mret (Response (Html completed_page) 200)
                  end
            | _, _ => session_not_found
            end
      | None => missing_state
      end
  end.

(** ** Sequences of calls *)

Inductive operation : Type :=
| Register (client_id client_secret : string)
| Auth (args : gmap string string) (authorization_url : string → string * string)
| Callback (args : gmap string string) (url : string) (endpoint : token_endpoint).

(** The world after one call; an exception leaves the changes made before it
    was raised. *)
Definition run_operation (w : world) (o : operation) : world :=
  match o with
  | Register client_id client_secret => (register_session client_id client_secret w).2
  | Auth args authorization_url => (auth_route args authorization_url w).2
  | Callback args url endpoint => (callback_route args url endpoint w).2
  end.

Definition run (ops : list operation) (w : world) : world :=
  foldl run_operation w ops.

(** ** The desktop side: [AuthApp], [start_flask_server], [trigger_authorization]

    The window is reduced to what the methods read and write: the three
    [StringVar]s, the text of the log widget and the message boxes shown.
    The process adds the server thread ([_server_thread] and whether it is
    alive), [os.environ], and counters for the requests sent and the pauses
    taken by [trigger_authorization]. [AuthApp.log_queue] is the queue that
    [set_log_queue] installed, so it is [gui_log_queue] of the core world.
    The timer that re-arms [process_log_queue] is left out. *)

Inductive dialog : Type :=
| ShowWarning (title message : string)
| ShowError (title message : string).

Record gui : Type := Gui {
  client_id_var : string;
  client_secret_var : string;
  status_var : string;
  log_text : string;
  dialogs : list dialog
}.

Record process : Type := Process {
  core : world;
  window : gui;
  server_thread : option bool;
  threads_started : nat;
  environ : gmap string string;
  requests_sent : nat;
  sleeps : nat
}.

Definition set_core (w : world) (p : process) : process :=
  Process w (window p) (server_thread p) (threads_started p) (environ p)
          (requests_sent p) (sleeps p).

Definition set_window (g : gui) (p : process) : process :=
  Process (core p) g (server_thread p) (threads_started p) (environ p)
          (requests_sent p) (sleeps p).

(** Exceptions of the desktop side: those of the core, and the two classes of
    [requests.exceptions] the code tells apart ([ConnectionError] is a
    [RequestException]). *)
Inductive py_exn : Type :=
| Core (e : exn)
| ConnectionError (message : string)
| RequestException (message : string).

Inductive presult (A : Type) : Type :=
| PRet (a : A)
| PRaise (e : py_exn).
Arguments PRet {A} a.
Arguments PRaise {A} e.

Definition P (A : Type) : Type := process → presult A * process.

Definition praise {A} (e : py_exn) : P A := λ p, (PRaise e, p).

Definition pgets {A} (f : process → A) : P A := λ p, (PRet (f p), p).

Definition pmodify (f : process → process) : P unit := λ p, (PRet tt, f p).

#[global] Instance P_ret : MRet P := λ A a p, (PRet a, p).

Definition pret {A} (a : A) : P A := mret a.

#[global] Instance P_bind : MBind P := λ A B k m p,
  match m p with
  | (PRet a, p') => k a p'
  | (PRaise e, p') => (PRaise e, p')
  end.

(** A function of the core called from the desktop side. *)
Definition lift_core {A} (m : M A) : P A := λ p,
  match m (core p) with
  | (Ret a, w') => (PRet a, set_core w' p)
  | (Raise e, w') => (PRaise (Core e), set_core w' p)
  end.

(** [AuthApp.__init__]: empty entries, the initial status line, an empty log,
    and a fresh queue handed to [set_log_queue]. *)
Definition AuthApp_init (w : world) (env : gmap string string) : process :=
  Process (set_log_queue [] w).2
          (Gui "" "" "Ingresa tu Client ID y Client Secret." "" [])
          None 0 env 0 0.

Definition set_status (message : string) : P unit :=
  pmodify (λ p, set_window (Gui (client_id_var (window p)) (client_secret_var (window p))
                                message (log_text (window p)) (dialogs (window p))) p).

Definition show (d : dialog) : P unit :=
  pmodify (λ p, set_window (Gui (client_id_var (window p)) (client_secret_var (window p))
                                (status_var (window p)) (log_text (window p))
                                (dialogs (window p) ++ [d])%list) p).

(** [log_message]: the message and a newline go to the end of the widget. *)
Definition log_message (message : string) : P unit :=
  pmodify (λ p, set_window (Gui (client_id_var (window p)) (client_secret_var (window p))
                                (status_var (window p))
                                (log_text (window p) ++ message ++ String "010" "")
                                (dialogs (window p))) p).

(** The loop of [process_log_queue] over the records taken from the queue. *)
Fixpoint process_records (records : list log_event) : P unit :=
  match records with
  | [] => pret tt
  | LogEvent event_type message :: rest =>
      (if bool_decide (event_type = "status") then set_status message else pret tt) ;;
      log_message message ;;
      process_records rest
  end.

Definition process_log_queue : P unit :=
  queue ← pgets (λ p, gui_log_queue (core p));
  match queue with
  | Some records =>
      pmodify (λ p, set_core (set_gui_log_queue (Some []) (core p)) p) ;;
      process_records records
  | None => pret tt
  end.

(** [start_flask_server]: nothing when the thread exists and is alive;
    otherwise a new daemon thread is started and a line is logged. *)
Definition start_flask_server : P unit :=
  thread ← pgets server_thread;
  match thread with
  | Some true => pret tt
  | _ =>
      pmodify (λ p, Process (core p) (window p) (Some true) (S (threads_started p))
                            (environ p) (requests_sent p) (sleeps p)) ;;
      lift_core (emit_log "Servidor local iniciado en http://localhost:5000." false)
  end.

(** What [requests.get] can do: the server answers, the connection fails
    ([ConnectionError]), or the request fails otherwise (any other
    [RequestException], a timeout for one). An answer is a response of the
    Flask application: [Content-Type] is [application/json] exactly when the
    body was built by [jsonify]. *)
Inductive get_result : Type :=
| Answered (r : response)
| Refused (exc : string)
| Failed (exc : string).

(** The other end of [requests.get("http://localhost:5000/auth", ...)]: what
    the [n]-th request of the process, sent with the [client_id] parameter,
    does to the core world and what comes back. *)
Definition network : Type := nat → string → M get_result.

Definition requests_get (net : network) (client_id : string) : P get_result :=
  n ← pgets requests_sent;
  pmodify (λ p, Process (core p) (window p) (server_thread p) (threads_started p)
                        (environ p) (S (requests_sent p)) (sleeps p)) ;;
  lift_core (net n client_id).

(** [time.sleep(0.3)] *)
Definition sleep : P unit :=
  pmodify (λ p, Process (core p) (window p) (server_thread p) (threads_started p)
                        (environ p) (requests_sent p) (S (sleeps p))).

(** [payload.get("message", "Autorización iniciada.")]: only a [dict] has
    [get]. *)
Definition payload_message (payload : json) : P json :=
  match payload with
  | JObj fields => pret (default (JStr "Autorización iniciada.") (fields !! "message"))
  | _ => praise (Core AttributeError)
  end.

(** The [for _ in range(attempts)] loop of [trigger_authorization] and the
    two [raise] after it; [last_error] is the message of the last
    [ConnectionError]. *)
Fixpoint trigger_loop (net : network) (client_id : string) (attempts : nat)
    (last_error : option string) : P json :=
  match attempts with
  | O =>
      match last_error with
      | Some exc => praise (ConnectionError exc)
      | None => praise (ConnectionError "No se pudo conectar al servidor Flask.")
      end
  | S attempts' =>
      result ← requests_get net client_id;
      match result with
      | Answered r =>
          match response_body r with
          | Json payload => payload_message payload
          | Html text => pret (JStr text)
          end
      | Refused exc => sleep ;; trigger_loop net client_id attempts' (Some exc)
      | Failed exc => praise (RequestException exc)
      end
  end.

Definition trigger_authorization (net : network) (client_id : string) : P json :=
  trigger_loop net client_id 10 None.

(** [try: ... except requests_exceptions.RequestException as exc: ...] *)
Definition except_RequestException {A} (body : P A) (handler : string → P A) : P A :=
  λ p,
    match body p with
    | (PRaise (ConnectionError exc), p') => handler exc p'
    | (PRaise (RequestException exc), p') => handler exc p'
    | other => other
    end.

(** [on_authenticate]. [format] is the formatting of the value returned by
    [trigger_authorization] in [f"{message}\n"]; on a [str] it is the
    identity. The two [except OSError] branches have no counterpart: the
    file system and the thread start do not fail here. *)
Definition on_authenticate (format : json → string) (net : network) : P unit :=
  client_id ← pgets (λ p, strip (client_id_var (window p)));
  client_secret ← pgets (λ p, strip (client_secret_var (window p)));
  if negb (truthy client_id) || negb (truthy client_secret) then
    show (ShowWarning "Datos incompletos"
                      "Debes proporcionar el Client ID y el Client Secret.")
  else
    lift_core (save_credentials client_id client_secret) ;;
    lift_core (register_session client_id client_secret) ;;
    pmodify (λ p, Process (core p) (window p) (server_thread p) (threads_started p)
                          (<["OAUTHLIB_INSECURE_TRANSPORT" := "1"]> (environ p))
                          (requests_sent p) (sleeps p)) ;;
    start_flask_server ;;
    set_status "Iniciando autorización..." ;;
    started ← except_RequestException
      (message ← trigger_authorization net client_id;
       log_message (format message) ;;
       pret true)
      (λ exc,
         show (ShowError "Autenticación" ("Error al iniciar la autorización: " ++ exc)) ;;
         log_message ("Error al iniciar la autorización: " ++ exc) ;;
         pret false);
    match started with
    | true => set_status "Autoriza el acceso en el navegador."
    | false => pret tt
    end.

(** The Flask application of this module behind [requests.get]: the requests
    numbered below [up_from] find nobody listening; from then on a request is
    handed to [auth_route] with its [client_id] parameter and the response
    comes back. *)
Definition flask_server (authorization_url : string → string * string)
    (up_from : nat) : network :=
  λ n client_id,
    if (n <? up_from)%nat then mret (Refused "Connection refused")
    else
      r ← auth_route {[ "client_id" := client_id ]} authorization_url;
      mret (Answered r).

(** ** Vocabulary of the properties *)

(** A store file that [ensure_json_file] rewrites: it is missing, or
    [json.load] raises [JSONDecodeError] on it. *)
Definition missing_or_invalid_json (f : file) : Prop :=
  f = Absent ∨ f = Corrupt.

(** The records of a credential document whose ["client_id"] is [client_id]. *)
Definition is_record_for (client_id : string) (v : json) : bool :=
  match v with
  | JObj entry => get_eq_str entry "client_id" client_id
  | _ => false
  end.

Definition records_for (client_id : string) (data : list json) : list json :=
  List.filter (is_record_for client_id) data.

Definition is_dict (v : json) : Prop :=
  match v with
  | JObj _ => True
  | _ => False
  end.

(** The credential list a file stands for: a healed file starts empty. *)
Definition credential_list (f : file) : option (list json) :=
  match f with
  | Absent | Corrupt => Some []
  | Holds (JArr entries) => Some entries
  | Holds _ | Unloadable _ => None
  end.

(** A well-formed credential store: a list of records with at most one record
    per client id. *)
Definition unique_records (w : world) : Prop :=
  ∃ entries,
    credential_list (credentials_file w) = Some entries
    ∧ Forall is_dict entries
    ∧ ∀ client_id, (length (records_for client_id entries) ≤ 1)%nat.

(** Every entry of the state index points at a pending session that records
    the same state. *)
Definition index_consistent (w : world) : Prop :=
  ∀ state client_id,
    state_to_client w !! state = Some client_id →
    ∃ info, active_sessions w !! client_id = Some info
            ∧ info !! "state" = Some state.

(** The pending session a state value resolves to: the index knows the state,
    the client id it gives is truthy, and a truthy session is stored under
    it (the test of lines 211 to 214). *)
Definition live_session (w : world) (state : string)
    : option (string * gmap string string) :=
  match state_to_client w !! state with
  | Some client_id =>
      if truthy client_id then
        match active_sessions w !! client_id with
        | Some info => if truthy_dict info then Some (client_id, info) else None
        | None => None
        end
      else None
  | None => None
  end.

(** [/auth] is called for a client while no state of that client, other than
    the one being assigned, is in the index. *)
Definition no_other_state (w : world) (o : operation) : Prop :=
  match o with
  | Auth args authorization_url =>
      let client_id := strip (default "" (args !! "client_id")) in
      ∀ state, state_to_client w !! state = Some client_id →
               state = (authorization_url client_id).2
  | _ => True
  end.

Fixpoint one_state_per_client (ops : list operation) (w : world) : Prop :=
  match ops with
  | [] => True
  | o :: rest => no_other_state w o ∧ one_state_per_client rest (run_operation w o)
  end.

(** A call made for another client than [a], whose pending state is
    [state_a]: a registration of another client id; an [/auth] request for
    another client id that is given another state; a callback that carries an
    error, or no state, or a state that the index does not map to [a]. *)
Definition foreign_to (a state_a : string) (w : world) (o : operation) : Prop :=
  match o with
  | Register client_id _ => client_id ≠ a
  | Auth args authorization_url =>
      let client_id := strip (default "" (args !! "client_id")) in
      client_id ≠ a ∧ (authorization_url client_id).2 ≠ state_a
  | Callback args _ _ =>
      match args !! "error", args !! "state" with
      | None, Some state => state_to_client w !! state ≠ Some a
      | _, _ => True
      end
  end.

Fixpoint others_only (a state_a : string) (ops : list operation) (w : world) : Prop :=
  match ops with
  | [] => True
  | o :: rest => foreign_to a state_a w o ∧ others_only a state_a rest (run_operation w o)
  end.

(** No suffix of [s] is whitespace only: what [rstrip] leaves. *)
Fixpoint trimmed_right (s : string) : Prop :=
  match s with
  | EmptyString => True
  | String c rest => all_space s = false ∧ trimmed_right rest
  end.

(** U+00A0, the no-break space, and U+3000, the ideographic space, in
    UTF-8. *)
Definition nbsp : string := String "194" (String "160" "").

Definition ideographic_space : string := String "227" (String "128" (String "128" "")).

(** The same world with no log queue attached. *)
Definition without_log (w : world) : world := set_gui_log_queue None w.

(** What [process_log_queue] writes into the log widget for a list of
    records, and the status line it leaves. *)
Fixpoint log_lines (records : list log_event) : string :=
  match records with
  | [] => ""
  | LogEvent _ message :: rest => message ++ String "010" "" ++ log_lines rest
  end.

Fixpoint last_status (records : list log_event) (current : string) : string :=
  match records with
  | [] => current
  | LogEvent event_type message :: rest =>
      last_status rest (if bool_decide (event_type = "status") then message else current)
  end.

(** The process after [requests] more requests and [pauses] more pauses, with
    core world [w]. *)
Definition after_attempts (requests pauses : nat) (w : world) (p : process) : process :=
  Process w (window p) (server_thread p) (threads_started p) (environ p)
          (requests_sent p + requests) (sleeps p + pauses).

Ltac unfold_M :=
  unfold mbind, M_bind, mret, M_ret, gets, modify, lift_outcome, write_json.

Ltac run_M := unfold_M; simpl.

(** * Properties of [str.strip] *)

Section Strings.

#[local] Arguments space_width : simpl never.

Lemma lstrip_unfold s :
  lstrip s = match after_space s with Some rest => lstrip rest | None => s end.
Proof.
  unfold after_space. destruct s as [ | c1 [ | c2 [ | c3 r]]]; cbn [lstrip];
    destruct (space_width _) as [ | [ | [ | [ | n]]]]; reflexivity.
Qed.

Lemma all_space_unfold s :
  all_space s
  = match s with
    | EmptyString => true
    | _ => match after_space s with Some rest => all_space rest | None => false end
    end.
Proof.
  unfold after_space. destruct s as [ | c1 [ | c2 [ | c3 r]]]; cbn [all_space];
    try reflexivity; destruct (space_width _) as [ | [ | [ | [ | n]]]]; reflexivity.
Qed.

Lemma after_space_length s rest :
  after_space s = Some rest → (String.length rest < String.length s)%nat.
Proof.
  unfold after_space. destruct s as [ | c1 [ | c2 [ | c3 r]]];
    destruct (space_width _) as [ | [ | [ | [ | n]]]]; intros [= <-]; simpl; lia.
Qed.

Lemma after_space_app s rest t :
  after_space s = Some rest → after_space (s ++ t) = Some (rest ++ t).
Proof.
  unfold after_space, space_width.
  destruct s as [ | c1 [ | c2 [ | c3 r]]]; simpl;
    repeat (case_match; simpl; try done); intros [= <-]; try done.
Qed.

Lemma all_space_lstrip s : all_space s = true → lstrip s = "".
Proof.
  remember (String.length s) as n eqn:Hn. revert s Hn.
  induction n as [n IH] using lt_wf_ind. intros s -> Hs.
  rewrite all_space_unfold in Hs. rewrite lstrip_unfold.
  destruct s as [ | c r]; [done|].
  destruct (after_space (String c r)) as [rest | ] eqn:Ha; [|done].
  eapply IH; [by eapply after_space_length | done | done].
Qed.

Lemma all_space_app x y :
  all_space x = true → all_space y = true → all_space (x ++ y) = true.
Proof.
  remember (String.length x) as n eqn:Hn. revert x Hn.
  induction n as [n IH] using lt_wf_ind. intros x -> Hx Hy.
  destruct x as [ | c r]; [done|].
  rewrite all_space_unfold in Hx.
  destruct (after_space (String c r)) as [rest | ] eqn:Ha; [|done].
  rewrite all_space_unfold. change (String c r ++ y) with (String c (r ++ y)).
  change (String c (r ++ y)) with (String c r ++ y).
  rewrite (after_space_app _ _ y Ha).
  change (String c r ++ y) with (String c (r ++ y)). cbv iota.
  eapply IH; [by eapply after_space_length | done | done | done].
Qed.

Lemma rstrip_split s : ∃ tail, s = rstrip s ++ tail ∧ all_space tail = true.
Proof.
  induction s as [ | c r IH]; [by exists ""|].
  cbn [rstrip]. destruct (all_space (String c r)) eqn:Hs.
  - by exists (String c r).
  - destruct IH as (tail & Hr & Ht). exists tail. split; [|done].
    change (String c (rstrip r) ++ tail) with (String c (rstrip r ++ tail)).
    by rewrite <- Hr.
Qed.

Lemma rstrip_fixed s : trimmed_right s → rstrip s = s.
Proof.
  induction s as [ | c r IH]; [done|]. intros [Hs Hr].
  cbn [rstrip]. rewrite Hs. by rewrite (IH Hr).
Qed.

Lemma rstrip_trimmed s : trimmed_right (rstrip s).
Proof.
  induction s as [ | c r IH]; [done|].
  cbn [rstrip]. destruct (all_space (String c r)) eqn:Hs; [done|].
  split; [|done].
  destruct (all_space (String c (rstrip r))) eqn:Hp; [|done].
  destruct (rstrip_split r) as (tail & Hr & Ht).
  pose proof (all_space_app _ _ Hp Ht) as Happ.
  change (String c (rstrip r) ++ tail) with (String c (rstrip r ++ tail)) in Happ.
  rewrite <- Hr in Happ. congruence.
Qed.

Lemma rstrip_idempotent s : rstrip (rstrip s) = rstrip s.
Proof. apply rstrip_fixed, rstrip_trimmed. Qed.

Lemma lstrip_after_space s : after_space (lstrip s) = None.
Proof.
  remember (String.length s) as n eqn:Hn. revert s Hn.
  induction n as [n IH] using lt_wf_ind. intros s ->.
  rewrite lstrip_unfold.
  destruct (after_space s) as [rest | ] eqn:Ha; [|done].
  eapply IH; [by eapply after_space_length | done].
Qed.

Lemma lstrip_fixed s : after_space s = None → lstrip s = s.
Proof. intros H. rewrite lstrip_unfold. by rewrite H. Qed.

Lemma strip_idempotent s : strip (strip s) = strip s.
Proof.
  unfold strip. destruct (rstrip_split (lstrip s)) as (tail & Hsplit & _).
  assert (after_space (rstrip (lstrip s)) = None) as Hp.
  { destruct (after_space (rstrip (lstrip s))) as [rest | ] eqn:Ha; [|done].
    pose proof (after_space_app _ _ tail Ha) as Happ.
    rewrite <- Hsplit, lstrip_after_space in Happ. done. }
  rewrite (lstrip_fixed _ Hp). apply rstrip_idempotent.
Qed.

Lemma strip_all_space s : all_space s = true → strip s = "".
Proof. intros H. unfold strip. by rewrite (all_space_lstrip _ H). Qed.

End Strings.

(** * Properties of the stores *)

Section Stores.

Implicit Types (w : world) (p : path) (default token : json).
Implicit Types (client_id client_secret secret_a secret_b other : string).

Lemma read_file_write p v w :
  read_file p ((write_json p v w).2) = Holds v.
Proof. destruct p; reflexivity. Qed.

Lemma ensure_json_file_heals p default w :
  missing_or_invalid_json (read_file p w) →
  ensure_json_file p default w = (Ret default, (write_json p default w).2).
Proof.
  intros [H | H]; unfold ensure_json_file; run_M; rewrite H; reflexivity.
Qed.

Lemma ensure_json_file_holds p default v w :
  read_file p w = Holds v →
  ensure_json_file p default w = (Ret v, w).
Proof.
  intros H. unfold ensure_json_file. run_M. rewrite H. reflexivity.
Qed.

Lemma ensure_json_file_twice p default w :
  missing_or_invalid_json (read_file p w) →
  ∃ w', ensure_json_file p default w = (Ret default, w')
        ∧ read_file p w' = Holds default
        ∧ ensure_json_file p default w' = (Ret default, w').
Proof.
  intros H. exists (write_json p default w).2. split; [|split].
  - by apply ensure_json_file_heals.
  - apply read_file_write.
  - apply ensure_json_file_holds, read_file_write.
Qed.

Lemma ensure_json_file_unloadable p default why w :
  read_file p w = Unloadable why →
  ensure_json_file p default w = (Raise (load_exception why), w).
Proof.
  intros H. unfold ensure_json_file, raise. run_M. rewrite H. reflexivity.
Qed.

(** C5. A store file that is not UTF-8 text is not healed. On a credential
    file and a token file that both consist of the single byte 0xFF,
    [json.load] raises [UnicodeDecodeError], which the [except] clause of
    [ensure_json_file] does not catch: the load inside [save_credentials],
    [load_tokens], [save_credentials] and [save_token] all raise it to the
    caller, nothing is written, and so the next load raises again. *)
Theorem load_raises_on_undecodable_file :
  let w := set_tokens_file (Unloadable NotUtf8)
             (set_credentials_file (Unloadable NotUtf8) initial_world) in
  ensure_json_file CREDENTIALS_FILE (JArr []) w = (Raise UnicodeDecodeError, w)
  ∧ load_tokens w = (Raise UnicodeDecodeError, w)
  ∧ save_credentials "abc" "s3cret" w = (Raise UnicodeDecodeError, w)
  ∧ save_token "abc" (JObj {[ "access_token" := JStr "T" ]}) w
    = (Raise UnicodeDecodeError, w).
Proof. repeat split. Qed.

(** *** Tokens *)

Lemma save_token_mapping client_id token fields w w0 :
  load_tokens w = (Ret (JObj fields), w0) →
  save_token client_id token w
  = (Ret tt, set_tokens_file (Holds (JObj (<[client_id := token]> fields))) w).
Proof.
  unfold load_tokens, save_token, ensure_json_file. run_M.
  destruct w as [q ses idx cf tf eff]; simpl.
  destruct tf as [ | | v | why]; simpl; intros H; inversion H; subst; reflexivity.
Qed.

(** C10. Saving a token leaves the records of the other client ids alone:
    when the store loads as the mapping [fields], [save_token] returns
    normally, and the store then loads as [fields] with [client_id] bound to
    [token] and every other key bound as before. *)
Theorem save_token_frame client_id token fields w w0 :
  load_tokens w = (Ret (JObj fields), w0) →
  ∃ w1 fields',
    save_token client_id token w = (Ret tt, w1)
    ∧ load_tokens w1 = (Ret (JObj fields'), w1)
    ∧ fields' = <[client_id := token]> fields
    ∧ fields' !! client_id = Some token
    ∧ ∀ other, other ≠ client_id → fields' !! other = fields !! other.
Proof.
  intros H.
  exists (set_tokens_file (Holds (JObj (<[client_id := token]> fields))) w),
         (<[client_id := token]> fields).
  split; [by eapply save_token_mapping|].
  split; [reflexivity|]. split; [reflexivity|]. split.
  - apply lookup_insert_eq.
  - intros other Hne. by apply lookup_insert_ne.
Qed.

Lemma save_token_frame_witness :
  ∃ w1 fields',
    save_token "abc" (JObj {[ "access_token" := JStr "T" ]})
               (set_tokens_file (Holds (JObj {[ "xyz" := JStr "old" ]})) initial_world)
    = (Ret tt, w1)
    ∧ load_tokens w1 = (Ret (JObj fields'), w1)
    ∧ fields' = <["abc" := JObj {[ "access_token" := JStr "T" ]}]> {[ "xyz" := JStr "old" ]}
    ∧ fields' !! "abc" = Some (JObj {[ "access_token" := JStr "T" ]})
    ∧ ∀ other, other ≠ "abc" → fields' !! other = ({[ "xyz" := JStr "old" ]} : gmap string json) !! other.
Proof.
  eapply (save_token_frame "abc" (JObj {[ "access_token" := JStr "T" ]})
            {[ "xyz" := JStr "old" ]}
            (set_tokens_file (Holds (JObj {[ "xyz" := JStr "old" ]})) initial_world)).
  reflexivity.
Defined.

(** A document that is not a mapping makes [save_token] raise and leaves the
    file as it was. *)
Lemma save_token_not_mapping client_id token v w :
  tokens_file w = Holds v →
  (∀ fields, v ≠ JObj fields) →
  save_token client_id token w = (Raise TypeError, w).
Proof.
  intros Hf Hv. unfold save_token, ensure_json_file. run_M. rewrite Hf.
  destruct v; simpl; try reflexivity. by destruct (Hv fields).
Qed.

(** *** Credentials *)

Lemma new_record_matches client_id client_secret :
  get_eq_str {[ "client_id" := JStr client_id; "client_secret" := JStr client_secret ]}
             "client_id" client_id = true.
Proof.
  unfold get_eq_str. rewrite lookup_insert_eq. simpl. by apply bool_decide_eq_true.
Qed.

Lemma updated_record_matches entry client_id client_secret :
  get_eq_str entry "client_id" client_id = true →
  get_eq_str (<["client_secret" := JStr client_secret]> entry) "client_id" client_id = true.
Proof.
  unfold get_eq_str. by rewrite lookup_insert_ne.
Qed.

(** The loop on a list of dictionaries: it returns normally, the result is
    again a list of dictionaries, and the records for [client_id] are the
    former ones with the first replaced (or created) and carrying the new
    secret. *)
Lemma save_credentials_loop_records client_id client_secret data :
  Forall is_dict data →
  ∃ data' entry',
    save_credentials_loop client_id client_secret data = Ret data'
    ∧ Forall is_dict data'
    ∧ records_for client_id data' = JObj entry' :: tail (records_for client_id data)
    ∧ entry' !! "client_id" = Some (JStr client_id)
    ∧ entry' !! "client_secret" = Some (JStr client_secret).
Proof.
  induction 1 as [ | v rest Hv Hrest IH].
  - exists [JObj {[ "client_id" := JStr client_id; "client_secret" := JStr client_secret ]}],
           {[ "client_id" := JStr client_id; "client_secret" := JStr client_secret ]}.
    split; [reflexivity|]. split; [by repeat constructor|]. split.
    + unfold records_for, is_record_for, List.filter.
      by rewrite new_record_matches.
    + split; [by rewrite lookup_insert_eq | ].
      rewrite lookup_insert_ne by done. by rewrite lookup_singleton_eq.
  - destruct v as [ | | | | | | entry]; try done.
    simpl. destruct (get_eq_str entry "client_id" client_id) eqn:Hm.
    + eexists _, _. split; [reflexivity|]. split; [by constructor|].
      simpl. rewrite (updated_record_matches _ _ _ Hm). split; [reflexivity|].
      split; [|by rewrite lookup_insert_eq].
      rewrite lookup_insert_ne by done.
      unfold get_eq_str in Hm. destruct (entry !! "client_id") as [[]|]; try done.
      simpl in Hm. apply bool_decide_eq_true in Hm. by subst.
    + destruct IH as (data' & entry' & -> & Hd & Hr & Hid & Hsec).
      exists (JObj entry :: data'), entry'.
      split; [reflexivity|]. split; [by constructor|].
      simpl. rewrite Hm. by repeat split.
Qed.

Lemma save_credentials_on_list client_id client_secret entries entries' w :
  credential_list (credentials_file w) = Some entries →
  save_credentials_loop client_id client_secret entries = Ret entries' →
  save_credentials client_id client_secret w
  = (Ret tt, set_credentials_file (Holds (JArr entries')) w).
Proof.
  intros Hl Hloop. unfold save_credentials, ensure_json_file. run_M.
  destruct w as [q ses idx cf tf eff]; simpl in *.
  destruct cf as [ | | v | why]; simpl in *.
  - inversion Hl; subst. simpl in Hloop. inversion Hloop. reflexivity.
  - inversion Hl; subst. simpl in Hloop. inversion Hloop. reflexivity.
  - destruct v; try done. inversion Hl; subst. simpl. rewrite Hloop. reflexivity.
  - done.
Qed.

(** C6. Upsert on [client_id], last writer wins: starting from a credential
    document that is a list of records with at most one record for
    [client_id] (a missing file, or one that is not valid JSON, counts as the
    empty list),
    saving [(client_id, secret_a)] and then [(client_id, secret_b)] leaves a
    document with exactly one record for [client_id], whose secret is
    [secret_b]. *)
Theorem save_credentials_last_writer_wins client_id secret_a secret_b entries w :
  credential_list (credentials_file w) = Some entries →
  Forall is_dict entries →
  (length (records_for client_id entries) ≤ 1)%nat →
  ∃ w1 w2 entries2 entry,
    save_credentials client_id secret_a w = (Ret tt, w1)
    ∧ save_credentials client_id secret_b w1 = (Ret tt, w2)
    ∧ credentials_file w2 = Holds (JArr entries2)
    ∧ records_for client_id entries2 = [JObj entry]
    ∧ entry !! "client_id" = Some (JStr client_id)
    ∧ entry !! "client_secret" = Some (JStr secret_b).
Proof.
  intros Hl Hd Hn.
  destruct (save_credentials_loop_records client_id secret_a entries Hd)
    as (entries1 & entry1 & Hloop1 & Hd1 & Hr1 & _ & _).
  destruct (save_credentials_loop_records client_id secret_b entries1 Hd1)
    as (entries2 & entry2 & Hloop2 & Hd2 & Hr2 & Hid & Hsec).
  eexists _, _, entries2, entry2.
  split; [by eapply save_credentials_on_list|].
  split; [by eapply save_credentials_on_list|].
  split; [reflexivity|]. split; [|done].
  rewrite Hr2, Hr1. simpl.
  destruct (records_for client_id entries) as [ | r [ | r' rs]]; simpl in *;
    [reflexivity | reflexivity | lia].
Qed.

Lemma save_credentials_last_writer_wins_witness :
  ∃ w1 w2 entries2 entry,
    save_credentials "abc" "secretA" initial_world = (Ret tt, w1)
    ∧ save_credentials "abc" "secretB" w1 = (Ret tt, w2)
    ∧ credentials_file w2 = Holds (JArr entries2)
    ∧ records_for "abc" entries2 = [JObj entry]
    ∧ entry !! "client_id" = Some (JStr "abc")
    ∧ entry !! "client_secret" = Some (JStr "secretB").
Proof.
  apply (save_credentials_last_writer_wins "abc" "secretA" "secretB" [] initial_world).
  - reflexivity.
  - constructor.
  - simpl. lia.
Defined.

(** Records of the other client ids are not touched by the loop. *)
Lemma save_credentials_loop_other client_id client_secret other data data' :
  other ≠ client_id →
  save_credentials_loop client_id client_secret data = Ret data' →
  records_for other data' = records_for other data.
Proof.
  intros Hne. revert data'. induction data as [ | v rest IH]; intros data' Hloop.
  - simpl in Hloop. inversion Hloop; subst.
    unfold records_for, is_record_for, List.filter, get_eq_str.
    rewrite lookup_insert_eq. simpl. by rewrite bool_decide_eq_false_2.
  - destruct v as [ | | | | | | entry]; try done.
    simpl in Hloop. destruct (get_eq_str entry "client_id" client_id) eqn:Hm.
    + inversion Hloop; subst. simpl.
      assert (get_eq_str entry "client_id" other = false) as Hother.
      { unfold get_eq_str in *. destruct (entry !! "client_id") as [[]|]; try done.
        simpl in *. apply bool_decide_eq_true in Hm. subst.
        by rewrite bool_decide_eq_false_2. }
      assert (get_eq_str (<["client_secret" := JStr client_secret]> entry) "client_id" other
              = false) as ->; [|by rewrite Hother].
      unfold get_eq_str in *. by rewrite lookup_insert_ne.
    + destruct (save_credentials_loop client_id client_secret rest) as [rest' | e];
        [|done].
      inversion Hloop; subst. simpl. by rewrite (IH rest' eq_refl).
Qed.

(** Records stay unique per client id under [save_credentials_loop], so every
    document the program writes from a missing file meets the premise of the
    theorem above. *)
Lemma save_credentials_loop_count client_id client_secret other data data' :
  Forall is_dict data →
  save_credentials_loop client_id client_secret data = Ret data' →
  (length (records_for other data) ≤ 1)%nat →
  (length (records_for other data') ≤ 1)%nat.
Proof.
  intros Hd Hloop Hn. destruct (decide (other = client_id)) as [-> | Hne].
  - destruct (save_credentials_loop_records client_id client_secret data Hd)
      as (d & e' & Hd' & _ & Hr & _ & _).
    rewrite Hloop in Hd'. inversion Hd'; subst d. rewrite Hr.
    destruct (records_for client_id data) as [ | r [ | r' rs]]; simpl in *; lia.
  - by rewrite (save_credentials_loop_other _ _ _ _ _ Hne Hloop).
Qed.

Lemma unique_records_initial : unique_records initial_world.
Proof. exists []. split; [reflexivity|]. split; [constructor|]. intros c. simpl. lia. Qed.

Lemma save_credentials_unique_records client_id client_secret w :
  unique_records w →
  ∃ w', save_credentials client_id client_secret w = (Ret tt, w')
        ∧ unique_records w'.
Proof.
  intros (entries & Hl & Hd & Hn).
  destruct (save_credentials_loop_records client_id client_secret entries Hd)
    as (entries' & entry' & Hloop & Hd' & _).
  eexists. split; [by eapply save_credentials_on_list|].
  exists entries'. split; [reflexivity|]. split; [done|].
  intros other.
  apply (save_credentials_loop_count client_id client_secret other entries entries'
           Hd Hloop (Hn other)).
Qed.

End Stores.

(** * Properties of the session registry *)

Section Registry.

Implicit Types (w : world) (index : gmap string string).
Implicit Types (client_id client_secret state : string).

Lemma pop_states_lookup states index state :
  pop_states states index !! state
  = if decide (state ∈ states) then None else index !! state.
Proof.
  unfold pop_states. revert index.
  induction states as [ | s states IH]; intros index.
  - destruct (decide (state ∈ [])) as [H | H]; [by apply elem_of_nil in H | done].
  - cbn [foldl]. rewrite IH.
    destruct (decide (state ∈ states)) as [Hin | Hin].
    + rewrite decide_True; [done | by right].
    + destruct (decide (state = s)) as [-> | Hne].
      * rewrite lookup_delete_eq, decide_True; [done | by left].
      * rewrite lookup_delete_ne by done. rewrite decide_False; [done|].
        intros [? | ?]%elem_of_cons; done.
Qed.

Lemma elem_of_stale_states client_id index state :
  state ∈ stale_states client_id index ↔ index !! state = Some client_id.
Proof.
  unfold stale_states. rewrite list_elem_of_fmap. split.
  - intros [[k v] [-> [Hv Hin]%list_elem_of_filter]]. simpl in *. subst.
    by apply elem_of_map_to_list.
  - intros H. exists (state, client_id). split; [done|].
    apply list_elem_of_filter. split; [done|]. by apply elem_of_map_to_list.
Qed.

Lemma register_session_world client_id client_secret w :
  register_session client_id client_secret w
  = (Ret tt,
     set_state_to_client
       (pop_states (stale_states client_id (state_to_client w)) (state_to_client w))
       (set_active_sessions
          (<[client_id := {[ "secret" := client_secret ]}]> (active_sessions w)) w)).
Proof. reflexivity. Qed.

(** After [register_session], the index has lost exactly the entries that
    pointed at [client_id]. *)
Lemma register_session_index client_id client_secret w state :
  state_to_client (register_session client_id client_secret w).2 !! state
  = match state_to_client w !! state with
    | Some c => if decide (c = client_id) then None else Some c
    | None => None
    end.
Proof.
  rewrite register_session_world. simpl. rewrite pop_states_lookup.
  destruct (state_to_client w !! state) as [c | ] eqn:Hc.
  - destruct (decide (c = client_id)) as [-> | Hne].
    + rewrite decide_True; [done|]. by apply elem_of_stale_states.
    + rewrite decide_False; [done|].
      intros Hin%elem_of_stale_states. congruence.
  - case_decide; done.
Qed.

Lemma register_session_sessions client_id client_secret w :
  active_sessions (register_session client_id client_secret w).2
  = <[client_id := {[ "secret" := client_secret ]}]> (active_sessions w).
Proof. reflexivity. Qed.

Lemma register_session_no_entry client_id client_secret w state :
  state_to_client (register_session client_id client_secret w).2 !! state
  ≠ Some client_id.
Proof.
  rewrite register_session_index.
  destruct (state_to_client w !! state) as [c | ]; [|done].
  case_decide; congruence.
Qed.

(** *** What each handler does to the registry *)

Lemma emit_log_world message status w :
  ∃ q, emit_log message status w = (Ret tt, set_gui_log_queue q w).
Proof.
  unfold emit_log, modify. destruct w as [[q | ] ses idx cf tf eff]; simpl; eauto.
Qed.

Lemma auth_route_registry args authorization_url w :
  let client_id := strip (default "" (args !! "client_id")) in
  let w' := (auth_route args authorization_url w).2 in
  (active_sessions w' = active_sessions w ∧ state_to_client w' = state_to_client w)
  ∨ (∃ info,
       active_sessions w !! client_id = Some info
       ∧ active_sessions w'
         = <[client_id := <["state" := (authorization_url client_id).2]> info]>
             (active_sessions w)
       ∧ state_to_client w'
         = <[(authorization_url client_id).2 := client_id]> (state_to_client w)).
Proof.
  intros client_id. unfold auth_route. fold client_id.
  destruct w as [q ses idx cf tf eff].
  destruct (truthy client_id); simpl.
  - run_M. destruct (ses !! client_id) as [info | ] eqn:Hinfo.
    + destruct (truthy_dict info).
      * destruct (authorization_url client_id) as [url state]. simpl.
        right. exists info. unfold emit_log, modify. by destruct q.
      * left. unfold emit_log, modify. by destruct q.
    + left. unfold emit_log, modify. by destruct q.
  - left. run_M. unfold emit_log, modify. by destruct q.
Qed.

Lemma save_token_cases client_id token w :
  (∃ fields, save_token client_id token w
             = (Ret tt, set_tokens_file (Holds (JObj fields)) w))
  ∨ (∃ e, save_token client_id token w = (Raise e, w)).
Proof.
  unfold save_token, ensure_json_file, raise. run_M.
  destruct w as [q ses idx cf tf eff]. simpl.
  destruct tf as [ | | v | why]; simpl; eauto.
  destruct v; simpl; eauto.
Qed.

Lemma callback_route_registry args url endpoint w :
  let w' := (callback_route args url endpoint w).2 in
  (active_sessions w' = active_sessions w ∧ state_to_client w' = state_to_client w)
  ∨ (∃ state,
       state_to_client w' = delete state (state_to_client w)
       ∧ (active_sessions w' = active_sessions w
          ∨ ∃ client_id,
              state_to_client w !! state = Some client_id
              ∧ active_sessions w' = delete client_id (active_sessions w))).
Proof.
  unfold callback_route. destruct (args !! "error") as [err | ].
  { left. unfold mbind, M_bind.
    destruct (emit_log_world ("Error devuelto por Fitbit: "
      ++ or_else (args !! "error_description") err) false w) as [q ->]. done. }
  destruct (args !! "state") as [state | ]; cycle 1.
  { left. unfold missing_state, mbind, M_bind.
    destruct (emit_log_world "Respuesta de Fitbit sin parámetro state." false w) as [q ->].
    done. }
  destruct (truthy state); cbn [negb]; cycle 1.
  { left. unfold missing_state, mbind, M_bind.
    destruct (emit_log_world "Respuesta de Fitbit sin parámetro state." false w) as [q ->].
    done. }
  right. exists state.
  destruct w as [q ses idx cf tf eff].
  unfold pop_state, session_not_found, fetch_token. run_M.
  destruct (idx !! state) as [client_id | ] eqn:Hidx; simpl.
  - destruct (truthy client_id); simpl.
    + destruct (ses !! client_id) as [info | ] eqn:Hinfo; simpl.
      * destruct (truthy_dict info); simpl.
        -- destruct (endpoint client_id (info !! "secret") state url) as [token | exc]; simpl.
           ++ match goal with
              | |- context [save_token client_id token ?w0] =>
                  destruct (save_token_cases client_id token w0) as [[fields ->] | [e ->]]
              end; simpl.
              ** split; [by destruct q|]. right. exists client_id. by destruct q.
              ** split; [done|]. by left.
           ++ unfold emit_log, modify. destruct q; simpl; split; auto.
        -- unfold emit_log, modify. destruct q; simpl; split; auto.
      * unfold emit_log, modify. destruct q; simpl; split; auto.
    + unfold emit_log, modify. destruct q; simpl; split; auto.
  - unfold emit_log, modify. destruct q; simpl; split; auto.
Qed.

(** *** The index invariant *)

Lemma index_consistent_initial : index_consistent initial_world.
Proof. intros state client_id H. simpl in H. by rewrite lookup_empty in H. Qed.

Lemma index_consistent_register client_id client_secret w :
  index_consistent w →
  index_consistent (register_session client_id client_secret w).2.
Proof.
  intros Hinv state c H. rewrite register_session_index in H.
  destruct (state_to_client w !! state) as [c' | ] eqn:Hc; [|done].
  destruct (decide (c' = client_id)) as [ | Hne]; [done|].
  inversion H; subst c'. rewrite register_session_sessions.
  rewrite lookup_insert_ne by done. by apply Hinv.
Qed.

Lemma index_consistent_auth args authorization_url w :
  index_consistent w →
  no_other_state w (Auth args authorization_url) →
  index_consistent (auth_route args authorization_url w).2.
Proof.
  intros Hinv Hone.
  destruct (auth_route_registry args authorization_url w)
    as [[Hs Hi] | (info & Hinfo & Hs & Hi)].
  - intros state c. rewrite Hs, Hi. apply Hinv.
  - intros state c. rewrite Hs, Hi.
    set (client_id := strip (default "" (args !! "client_id"))) in *.
    set (new := (authorization_url client_id).2) in *.
    destruct (decide (state = new)) as [-> | Hne].
    + rewrite lookup_insert_eq. intros [= <-]. rewrite lookup_insert_eq.
      eexists. split; [done|]. by rewrite lookup_insert_eq.
    + rewrite lookup_insert_ne by done. intros H.
      destruct (decide (c = client_id)) as [-> | Hc].
      * destruct Hne. by apply Hone.
      * rewrite lookup_insert_ne by done. by apply Hinv.
Qed.

Lemma index_consistent_callback args url endpoint w :
  index_consistent w →
  index_consistent (callback_route args url endpoint w).2.
Proof.
  intros Hinv.
  destruct (callback_route_registry args url endpoint w)
    as [[Hs Hi] | (popped & Hi & [Hs | (client_id & Hpopped & Hs)])];
    intros state c; rewrite Hs, Hi.
  - apply Hinv.
  - intros [Hne H]%lookup_delete_Some. by apply Hinv.
  - intros [Hne H]%lookup_delete_Some.
    destruct (decide (c = client_id)) as [-> | Hc].
    + destruct (Hinv _ _ H) as (info & Hinfo & Hstate).
      destruct (Hinv _ _ Hpopped) as (info' & Hinfo' & Hstate').
      congruence.
    + rewrite lookup_delete_ne by done. by apply Hinv.
Qed.

Lemma index_consistent_run ops w :
  index_consistent w →
  one_state_per_client ops w →
  index_consistent (run ops w).
Proof.
  revert w. induction ops as [ | o ops IH]; intros w Hinv Hone; [done|].
  destruct Hone as [Ho Hrest]. apply IH; [|done].
  destruct o as [client_id client_secret | args authorization_url | args url endpoint]; simpl.
  - by apply index_consistent_register.
  - by apply index_consistent_auth.
  - by apply index_consistent_callback.
Qed.

(** C1, as stated, fails: after [register_session("a", "s")] and two
    [GET /auth?client_id=a] that are given the states ["x"] and ["y"], the
    index still maps ["x"] to ["a"] while the session of ["a"] records
    ["y"]. *)
Lemma index_not_consistent_after_second_auth :
  ¬ index_consistent
      (run [ Register "a" "s";
             Auth {[ "client_id" := "a" ]} (λ _, ("https://www.fitbit.com/oauth2/authorize", "x"));
             Auth {[ "client_id" := "a" ]} (λ _, ("https://www.fitbit.com/oauth2/authorize", "y")) ]
           initial_world).
Proof.
  intros H. destruct (H "x" "a") as (info & Hinfo & Hstate).
  - vm_compute. reflexivity.
  - vm_compute in Hinfo. inversion Hinfo; subst info.
    vm_compute in Hstate. discriminate.
Qed.

(** C1, amended. The empty registry satisfies the invariant, and from any
    registry that satisfies it, after any sequence of [register_session],
    [GET /auth] and [GET /callback] in which [/auth] is never called for a
    client id while another state of that client id is still in the index,
    every key of the index maps to a client id that has a pending session
    whose ["state"] is that key; and [register_session] always leaves the
    index without any entry pointing at its client id. *)
Theorem index_consistent_one_state_per_client :
  index_consistent initial_world
  ∧ (∀ ops w, index_consistent w →
              one_state_per_client ops w →
              index_consistent (run ops w))
  ∧ (∀ w client_id client_secret state,
       state_to_client (register_session client_id client_secret w).2 !! state
       ≠ Some client_id).
Proof.
  split; [|split].
  - apply index_consistent_initial.
  - intros ops w Hinv Hone. by apply index_consistent_run.
  - intros w client_id client_secret state. apply register_session_no_entry.
Qed.

Lemma index_consistent_one_state_per_client_witness :
  index_consistent
    (run [ Auth {[ "client_id" := " b" ]} (λ _, ("https://www.fitbit.com/oauth2/authorize", "y"));
           Register "b" "t";
           Auth {[ "client_id" := "b " ]} (λ _, ("https://www.fitbit.com/oauth2/authorize", "z"));
           Callback {[ "state" := "x" ]} "http://localhost:5000/callback?state=x"
                    (λ _ _ _ _, Token (JObj {[ "access_token" := JStr "T" ]}));
           Register "a" "s2";
           Auth {[ "client_id" := "a" ]} (λ _, ("https://www.fitbit.com/oauth2/authorize", "v")) ]
         (set_state_to_client {[ "x" := "a" ]}
            (set_active_sessions {[ "a" := {[ "secret" := "s"; "state" := "x" ]} ]}
               initial_world))).
Proof.
  apply (proj1 (proj2 index_consistent_one_state_per_client)).
  - intros state c H. simpl in H. apply lookup_singleton_Some in H as [<- <-].
    exists {[ "secret" := "s"; "state" := "x" ]}. split; reflexivity.
  - repeat split; intros state H; apply elem_of_map_to_list in H; vm_compute in H;
      repeat (apply elem_of_cons in H as [H | H]; [by inversion H | ]);
      by apply elem_of_nil in H.
Defined.

End Registry.

(** * Properties of the handlers *)

Section Handlers.

Implicit Types (w : world) (args : gmap string string) (endpoint : token_endpoint).
Implicit Types (client_id client_secret state url : string).

Lemma truthy_true s : s ≠ "" → truthy s = true.
Proof. intros H. unfold truthy. by rewrite bool_decide_eq_false_2. Qed.

Lemma truthy_dict_true (d : gmap string string) : d ≠ ∅ → truthy_dict d = true.
Proof. intros H. unfold truthy_dict. by rewrite bool_decide_eq_false_2. Qed.

Lemma pop_state_world state w :
  pop_state state w
  = (Ret (state_to_client w !! state,
          match state_to_client w !! state with
          | Some c => if truthy c then active_sessions w !! c else None
          | None => None
          end),
     set_state_to_client (delete state (state_to_client w)) w).
Proof. reflexivity. Qed.

(** [/auth] for a registered client: the state is written into the session
    and into the index, the browser is opened, the answer is 200. *)
Lemma auth_route_assigns args authorization_url w client_id info url state :
  strip (default "" (args !! "client_id")) = client_id →
  client_id ≠ "" →
  active_sessions w !! client_id = Some info →
  info ≠ ∅ →
  authorization_url client_id = (url, state) →
  ∃ q,
    auth_route args authorization_url w
    = (Ret (Response (jsonify "message" "Autorización iniciada. Revisa el navegador.") 200),
       set_gui_log_queue q
         (add_effect (OpenBrowser url)
            (set_state_to_client (<[state := client_id]> (state_to_client w))
               (set_active_sessions
                  (<[client_id := <["state" := state]> info]> (active_sessions w)) w)))).
Proof.
  intros Hc Hne Hinfo Hd Hurl. unfold auth_route. cbv zeta. rewrite Hc.
  rewrite (truthy_true _ Hne). cbn [negb]. unfold_M. rewrite Hinfo.
  rewrite (truthy_dict_true _ Hd), Hurl.
  destruct w as [[q | ] ses idx cf tf eff]; simpl; eauto.
Qed.

(** [/callback] with no [error] and a state that resolves to no session. *)
Lemma callback_route_not_found args url endpoint w state :
  args !! "error" = None →
  args !! "state" = Some state →
  state ≠ "" →
  live_session w state = None →
  ∃ q,
    callback_route args url endpoint w
    = (Ret (Response (Html session_not_found_page) 400),
       set_gui_log_queue q
         (set_state_to_client (delete state (state_to_client w)) w)).
Proof.
  intros He Hs Hne Hlive. unfold callback_route. rewrite He, Hs.
  rewrite (truthy_true _ Hne). cbn [negb]. unfold mbind at 1. unfold M_bind.
  rewrite pop_state_world. unfold live_session in Hlive.
  destruct w as [[q | ] ses idx cf tf eff]; simpl in *;
    destruct (idx !! state) as [c | ]; simpl; eauto;
    destruct (truthy c); simpl; eauto;
    destruct (ses !! c) as [info | ]; simpl; eauto;
    destruct (truthy_dict info); simpl; eauto; done.
Qed.

(** [/callback] with no [error] and a state that resolves to a session: the
    index entry is popped, the token endpoint is called once with the client
    id and the secret of the session, and the outcome of the exchange
    decides the rest. *)
Lemma callback_route_fetches args url endpoint w state client_id info :
  args !! "error" = None →
  args !! "state" = Some state →
  state ≠ "" →
  live_session w state = Some (client_id, info) →
  ∃ r w',
    callback_route args url endpoint w = (r, w')
    ∧ state_to_client w' = delete state (state_to_client w)
    ∧ effects w' = (effects w ++ [FetchToken client_id (info !! "secret") state url])%list
    ∧ credentials_file w' = credentials_file w
    ∧ match endpoint client_id (info !! "secret") state url with
      | FetchError exc =>
          r = Ret (Response (Html exchange_failed_page) 500)
          ∧ tokens_file w' = tokens_file w
          ∧ active_sessions w' = active_sessions w
      | Token token =>
          (r = Ret (Response (Html completed_page) 200)
           ∧ (save_token client_id token w).1 = Ret tt
           ∧ tokens_file w' = tokens_file (save_token client_id token w).2
           ∧ active_sessions w' = delete client_id (active_sessions w))
          ∨ (∃ e, r = Raise e
                  ∧ (save_token client_id token w).1 = Raise e
                  ∧ tokens_file w' = tokens_file w
                  ∧ active_sessions w' = active_sessions w)
      end.
Proof.
  intros He Hs Hne Hlive. unfold callback_route. rewrite He, Hs.
  rewrite (truthy_true _ Hne). cbn [negb]. unfold mbind at 1. unfold M_bind.
  rewrite pop_state_world. unfold live_session in Hlive.
  destruct (state_to_client w !! state) as [c | ] eqn:Hidx; [|done].
  destruct (truthy c) eqn:Hc; [|done].
  destruct (active_sessions w !! c) as [info' | ] eqn:Hinfo; [|done].
  destruct (truthy_dict info') eqn:Hd; [|done].
  inversion Hlive; subst c info'. cbn [negb orb].
  unfold fetch_token. unfold_M.
  destruct (endpoint client_id (info !! "secret") state url) as [token | exc].
  - unfold save_token, ensure_json_file, raise. unfold_M.
    destruct w as [[q | ] ses idx cf tf eff]; simpl in *;
      destruct tf as [ | | v | why]; simpl; try destruct v; simpl;
      eexists _, _; (split; [reflexivity|]); simpl; repeat split; auto.
    all: try (left; repeat split; reflexivity).
    all: try (right; eexists; repeat split; reflexivity).
  - destruct w as [[q | ] ses idx cf tf eff]; simpl in *;
      eexists _, _; (split; [reflexivity|]); simpl; repeat split; auto.
Qed.

Lemma live_session_unknown w state :
  state_to_client w !! state = None → live_session w state = None.
Proof. intros H. unfold live_session. by rewrite H. Qed.

Lemma pop_state_unknown w state :
  state_to_client w !! state = None → pop_state state w = (Ret (None, None), w).
Proof.
  intros H. rewrite pop_state_world, H, (delete_id _ _ H). by destruct w.
Qed.

(** A callback whose state is not in the index answers "session not found"
    and calls nothing. *)
Lemma callback_route_unknown args url endpoint w state :
  args !! "error" = None →
  args !! "state" = Some state →
  state ≠ "" →
  state_to_client w !! state = None →
  ∃ q,
    callback_route args url endpoint w
    = (Ret (Response (Html session_not_found_page) 400), set_gui_log_queue q w).
Proof.
  intros He Hs Hne Hidx.
  destruct (callback_route_not_found args url endpoint w state He Hs Hne
              (live_session_unknown _ _ Hidx)) as [q ->].
  exists q. rewrite (delete_id _ _ Hidx). by destruct w.
Qed.

(** *** Register, assign, resolve *)

(** C2. For every client id and secret: after [register_session], a
    [GET /auth] that assigns a state to that client id (its [client_id]
    parameter strips to that id, which is not empty) answers 200; resolving
    the assigned state then returns exactly that client id and a session
    holding that secret, and resolving it again finds nothing. Resolution is
    destructive for every state and in every registry: a state that was
    resolved once resolves to nothing the second time. Through
    [GET /callback], which takes an empty state as missing: the first
    callback with the assigned state calls the token endpoint with that
    client id and that secret, whatever the exchange returns, and every
    later callback with the same state answers "session not found" without
    calling the endpoint. *)
Theorem register_auth_resolve_once w client_id client_secret args authorization_url
    url state :
  strip (default "" (args !! "client_id")) = client_id →
  client_id ≠ "" →
  authorization_url client_id = (url, state) →
  let w1 := (register_session client_id client_secret w).2 in
  let w2 := (auth_route args authorization_url w1).2 in
  (auth_route args authorization_url w1).1
  = Ret (Response (jsonify "message" "Autorización iniciada. Revisa el navegador.") 200)
  ∧ (∃ info w3,
       pop_state state w2 = (Ret (Some client_id, Some info), w3)
       ∧ info !! "secret" = Some client_secret
       ∧ pop_state state w3 = (Ret (None, None), w3))
  ∧ (∀ w0 state0,
       let w0' := (pop_state state0 w0).2 in
       pop_state state0 w0' = (Ret (None, None), w0'))
  ∧ (state ≠ "" →
     ∀ cargs curl endpoint,
       cargs !! "error" = None →
       cargs !! "state" = Some state →
       let w3 := (callback_route cargs curl endpoint w2).2 in
       effects w3 = (effects w2 ++ [FetchToken client_id (Some client_secret) state curl])%list
       ∧ ∀ cargs' curl' endpoint',
           cargs' !! "error" = None →
           cargs' !! "state" = Some state →
           ∃ w4,
             callback_route cargs' curl' endpoint' w3
             = (Ret (Response (Html session_not_found_page) 400), w4)
             ∧ effects w4 = effects w3).
Proof.
  intros Hstrip Hne Hurl w1 w2.
  set (info := <["state" := state]> ({[ "secret" := client_secret ]} : gmap string string)).
  assert (active_sessions w1 !! client_id = Some {[ "secret" := client_secret ]}) as Hses1.
  { subst w1. rewrite register_session_sessions. apply lookup_insert_eq. }
  destruct (auth_route_assigns args authorization_url w1 client_id
              {[ "secret" := client_secret ]} url state) as [q Hauth];
    [done | done | done | apply map_non_empty_singleton | done | ].
  assert (state_to_client w2 !! state = Some client_id) as Hidx.
  { subst w2. rewrite Hauth. simpl. apply lookup_insert_eq. }
  assert (active_sessions w2 !! client_id = Some info) as Hses.
  { subst w2. rewrite Hauth. simpl. apply lookup_insert_eq. }
  assert (info !! "secret" = Some client_secret) as Hsecret.
  { subst info. rewrite lookup_insert_ne by done. apply lookup_singleton_eq. }
  assert (live_session w2 state = Some (client_id, info)) as Hlive.
  { unfold live_session. rewrite Hidx, (truthy_true _ Hne), Hses.
    rewrite truthy_dict_true; [done | apply insert_non_empty]. }
  split; [by rewrite Hauth|]. split; [|split].
  - exists info, (set_state_to_client (delete state (state_to_client w2)) w2).
    split; [|split; [done|]].
    + rewrite pop_state_world, Hidx, (truthy_true _ Hne), Hses. done.
    + apply pop_state_unknown. simpl. apply lookup_delete_eq.
  - intros w0 state0 w0'. apply pop_state_unknown. subst w0'.
    rewrite pop_state_world. simpl. apply lookup_delete_eq.
  - intros Hstate cargs curl endpoint He Hs w3.
    destruct (callback_route_fetches cargs curl endpoint w2 state client_id info
                He Hs Hstate Hlive) as (r & w3' & Hcb & Hidx3 & Heff & _).
    assert (w3 = w3') as -> by (subst w3; by rewrite Hcb).
    split; [by rewrite Heff, Hsecret|].
    intros cargs' curl' endpoint' He' Hs'.
    destruct (callback_route_unknown cargs' curl' endpoint' w3' state He' Hs' Hstate)
      as [q' ->].
    { rewrite Hidx3. apply lookup_delete_eq. }
    eexists. split; [reflexivity|]. by destruct w3'.
Qed.

Lemma register_auth_resolve_once_witness :
  let w2 := run [ Register "abc" "sec";
                  Auth {[ "client_id" := nbsp ++ "abc " ]}
                       (λ _, ("https://www.fitbit.com/oauth2/authorize", "st4t3")) ]
                initial_world in
  ∃ info w3,
    pop_state "st4t3" w2 = (Ret (Some "abc", Some info), w3)
    ∧ info !! "secret" = Some "sec"
    ∧ pop_state "st4t3" w3 = (Ret (None, None), w3).
Proof.
  apply (register_auth_resolve_once initial_world "abc" "sec"
           {[ "client_id" := nbsp ++ "abc " ]}
           (λ _, ("https://www.fitbit.com/oauth2/authorize", "st4t3"))
           "https://www.fitbit.com/oauth2/authorize" "st4t3").
  - reflexivity.
  - discriminate.
  - reflexivity.
Defined.

(** *** Registering again *)

(** C3. Registering a client id again invalidates every state assigned to it
    before: a state that the index maps to [client_id] (assigned under an
    earlier registration, consumed or not) resolves to nothing after
    [register_session], and a callback presenting it answers "session not
    found" without calling the token endpoint. *)
Theorem register_again_invalidates_state w client_id client_secret state :
  state_to_client w !! state = Some client_id →
  let w' := (register_session client_id client_secret w).2 in
  pop_state state w' = (Ret (None, None), w')
  ∧ live_session w' state = None
  ∧ ∀ args url endpoint,
      args !! "error" = None →
      args !! "state" = Some state →
      ∃ w'',
        callback_route args url endpoint w'
        = (Ret (Response (Html (if truthy state then session_not_found_page
                                else missing_state_page)) 400), w'')
        ∧ effects w'' = effects w'
        ∧ tokens_file w'' = tokens_file w'.
Proof.
  intros Hidx w'.
  assert (state_to_client w' !! state = None) as Hgone.
  { subst w'. rewrite register_session_index, Hidx. by rewrite decide_True. }
  clearbody w'.
  split; [by apply pop_state_unknown|]. split; [by apply live_session_unknown|].
  intros args url endpoint He Hs.
  destruct (decide (state = "")) as [-> | Hne].
  - unfold callback_route. rewrite He, Hs. simpl.
    unfold missing_state, mbind, M_bind.
    destruct (emit_log_world "Respuesta de Fitbit sin parámetro state." false w') as [q ->].
    eexists. split; [reflexivity|]. by destruct w'.
  - rewrite (truthy_true _ Hne).
    destruct (callback_route_unknown args url endpoint w' state He Hs Hne Hgone) as [q ->].
    eexists. split; [reflexivity|]. by destruct w'.
Qed.

Lemma register_again_invalidates_state_witness :
  let w := run [ Register "abc" "sec";
                 Auth {[ "client_id" := "abc" ]}
                      (λ _, ("https://www.fitbit.com/oauth2/authorize", "st4t3")) ]
               initial_world in
  let w' := (register_session "abc" "sec2" w).2 in
  live_session w "st4t3" = Some ("abc", {[ "secret" := "sec"; "state" := "st4t3" ]})
  ∧ pop_state "st4t3" w' = (Ret (None, None), w').
Proof.
  split; [vm_compute; reflexivity|].
  apply (register_again_invalidates_state
           (run [ Register "abc" "sec";
                  Auth {[ "client_id" := "abc" ]}
                       (λ _, ("https://www.fitbit.com/oauth2/authorize", "st4t3")) ]
                initial_world) "abc" "sec2" "st4t3").
  vm_compute. reflexivity.
Defined.

(** *** [/callback] *)

(** C4. A callback whose state resolves to a pending session and whose token
    exchange raises answers 500 with the error page, leaves the token file
    as it was, and has consumed the state: the state no longer resolves, and
    a later callback presenting it answers "session not found" without
    calling the token endpoint or writing a token. *)
Theorem callback_exchange_failure_consumes_state w args url endpoint state
    client_id info exc :
  args !! "error" = None →
  args !! "state" = Some state →
  state ≠ "" →
  live_session w state = Some (client_id, info) →
  endpoint client_id (info !! "secret") state url = FetchError exc →
  ∃ w',
    callback_route args url endpoint w
    = (Ret (Response (Html exchange_failed_page) 500), w')
    ∧ tokens_file w' = tokens_file w
    ∧ live_session w' state = None
    ∧ ∀ args' url' endpoint',
        args' !! "error" = None →
        args' !! "state" = Some state →
        ∃ w'',
          callback_route args' url' endpoint' w'
          = (Ret (Response (Html session_not_found_page) 400), w'')
          ∧ effects w'' = effects w'
          ∧ tokens_file w'' = tokens_file w'.
Proof.
  intros He Hs Hne Hlive Hfail.
  destruct (callback_route_fetches args url endpoint w state client_id info
              He Hs Hne Hlive) as (r & w' & Hcb & Hidx & _ & _ & Hout).
  rewrite Hfail in Hout. destruct Hout as (-> & Htok & _).
  assert (state_to_client w' !! state = None) as Hgone.
  { rewrite Hidx. apply lookup_delete_eq. }
  exists w'. split; [done|]. split; [done|].
  split; [by apply live_session_unknown|].
  intros args' url' endpoint' He' Hs'.
  destruct (callback_route_unknown args' url' endpoint' w' state He' Hs' Hne Hgone)
    as [q ->].
  eexists. split; [reflexivity|]. by destruct w'.
Qed.

Lemma callback_exchange_failure_consumes_state_witness :
  let w := run [ Register "abc" "sec";
                 Auth {[ "client_id" := "abc" ]}
                      (λ _, ("https://www.fitbit.com/oauth2/authorize", "st4t3")) ]
               initial_world in
  ∃ w',
    callback_route {[ "state" := "st4t3"; "code" := "XYZ" ]}
                   "http://localhost:5000/callback?state=st4t3&code=XYZ"
                   (λ _ _ _ _, FetchError "invalid_grant") w
    = (Ret (Response (Html exchange_failed_page) 500), w')
    ∧ tokens_file w' = Absent
    ∧ live_session w' "st4t3" = None.
Proof.
  destruct (callback_exchange_failure_consumes_state
              (run [ Register "abc" "sec";
                     Auth {[ "client_id" := "abc" ]}
                          (λ _, ("https://www.fitbit.com/oauth2/authorize", "st4t3")) ]
                   initial_world)
              {[ "state" := "st4t3"; "code" := "XYZ" ]}
              "http://localhost:5000/callback?state=st4t3&code=XYZ"
              (λ _ _ _ _, FetchError "invalid_grant")
              "st4t3" "abc" {[ "secret" := "sec"; "state" := "st4t3" ]} "invalid_grant")
    as (w' & Hcb & Htok & Hlive & _).
  - reflexivity.
  - reflexivity.
  - discriminate.
  - vm_compute. reflexivity.
  - reflexivity.
  - exists w'. split; [exact Hcb|]. split; [exact Htok | exact Hlive].
Defined.

(** C7. A callback without [error] whose state value resolves to no pending
    session answers 400 with the "session not found" page; the token
    endpoint is not called and the token file is not written. *)
Theorem callback_unknown_state_rejected w args url endpoint state :
  args !! "error" = None →
  args !! "state" = Some state →
  state ≠ "" →
  live_session w state = None →
  ∃ w',
    callback_route args url endpoint w
    = (Ret (Response (Html session_not_found_page) 400), w')
    ∧ effects w' = effects w
    ∧ tokens_file w' = tokens_file w.
Proof.
  intros He Hs Hne Hlive.
  destruct (callback_route_not_found args url endpoint w state He Hs Hne Hlive) as [q ->].
  eexists. split; [reflexivity|]. by destruct w.
Qed.

Lemma callback_unknown_state_rejected_witness :
  ∃ w',
    callback_route {[ "state" := "forged"; "code" := "XYZ" ]}
                   "http://localhost:5000/callback?state=forged&code=XYZ"
                   (λ _ _ _ _, Token (JObj {[ "access_token" := JStr "T" ]}))
                   (run [ Register "abc" "sec" ] initial_world)
    = (Ret (Response (Html session_not_found_page) 400), w')
    ∧ effects w' = []
    ∧ tokens_file w' = Absent.
Proof.
  apply (callback_unknown_state_rejected
           (run [ Register "abc" "sec" ] initial_world)
           {[ "state" := "forged"; "code" := "XYZ" ]}
           "http://localhost:5000/callback?state=forged&code=XYZ"
           (λ _ _ _ _, Token (JObj {[ "access_token" := JStr "T" ]})) "forged").
  - reflexivity.
  - reflexivity.
  - discriminate.
  - reflexivity.
Defined.

(** A callback without [error] whose [state] is absent or empty answers 400
    with the "invalid response" page and calls nothing either. *)
Lemma callback_missing_state_rejected w args url endpoint :
  args !! "error" = None →
  truthy_opt (args !! "state") = false →
  ∃ q,
    callback_route args url endpoint w
    = (Ret (Response (Html missing_state_page) 400), set_gui_log_queue q w).
Proof.
  intros He Hs. unfold callback_route. rewrite He.
  destruct (emit_log_world "Respuesta de Fitbit sin parámetro state." false w) as [q Hlog].
  exists q. destruct (args !! "state") as [state | ]; simpl in Hs.
  - rewrite Hs. cbn [negb]. unfold missing_state, mbind, M_bind. by rewrite Hlog.
  - unfold missing_state, mbind, M_bind. by rewrite Hlog.
Qed.

(** C8. A callback that carries an [error] parameter answers 400 and leaves
    the registry as it was: the pending sessions and the state index are
    unchanged (and so are the files and the outside calls). *)
Theorem callback_error_leaves_registry w args url endpoint error :
  args !! "error" = Some error →
  ∃ w',
    callback_route args url endpoint w
    = (Ret (Response (Html ("<html><body><h1>Autenticación fallida</h1><p>"
                            ++ or_else (args !! "error_description") error
                            ++ "</p></body></html>")) 400), w')
    ∧ active_sessions w' = active_sessions w
    ∧ state_to_client w' = state_to_client w
    ∧ credentials_file w' = credentials_file w
    ∧ tokens_file w' = tokens_file w
    ∧ effects w' = effects w.
Proof.
  intros He. unfold callback_route. rewrite He. unfold mbind, M_bind.
  destruct (emit_log_world ("Error devuelto por Fitbit: "
              ++ or_else (args !! "error_description") error) false w) as [q ->].
  eexists. split; [reflexivity|]. by destruct w.
Qed.

Lemma callback_error_leaves_registry_witness :
  let w := run [ Register "abc" "sec";
                 Auth {[ "client_id" := "abc" ]}
                      (λ _, ("https://www.fitbit.com/oauth2/authorize", "st4t3")) ]
               initial_world in
  ∃ w',
    (callback_route {[ "error" := "access_denied"; "state" := "st4t3" ]}
                    "http://localhost:5000/callback?error=access_denied&state=st4t3"
                    (λ _ _ _ _, FetchError "unused") w).2 = w'
    ∧ active_sessions w' = active_sessions w
    ∧ state_to_client w' = state_to_client w.
Proof.
  intros w.
  destruct (callback_error_leaves_registry w
              {[ "error" := "access_denied"; "state" := "st4t3" ]}
              "http://localhost:5000/callback?error=access_denied&state=st4t3"
              (λ _ _ _ _, FetchError "unused") "access_denied")
    as (w' & Hcb & Hses & Hidx & _).
  - reflexivity.
  - exists w'. rewrite Hcb. split; [reflexivity|]. split; [exact Hses | exact Hidx].
Defined.

(** *** [/auth] *)

(** C9. A [GET /auth] whose [client_id] parameter is absent, empty or
    whitespace only (so that the stripped value is empty) answers 400 with
    the JSON error body and changes neither the sessions nor the index, and
    opens no browser; the files are untouched too. *)
Theorem auth_without_client_id w args authorization_url :
  (∀ raw, args !! "client_id" = Some raw → all_space raw = true) →
  strip (default "" (args !! "client_id")) = ""
  ∧ ∃ w',
      auth_route args authorization_url w
      = (Ret (Response (jsonify "error" "Falta el client_id.") 400), w')
      ∧ active_sessions w' = active_sessions w
      ∧ state_to_client w' = state_to_client w
      ∧ effects w' = effects w
      ∧ credentials_file w' = credentials_file w
      ∧ tokens_file w' = tokens_file w.
Proof.
  intros Hraw.
  assert (strip (default "" (args !! "client_id")) = "") as Hempty.
  { destruct (args !! "client_id") as [raw | ]; simpl; [|reflexivity].
    by apply strip_all_space, Hraw. }
  split; [done|]. unfold auth_route. cbv zeta. rewrite Hempty.
  change (negb (truthy "")) with true. cbv iota. unfold mbind, M_bind.
  destruct (emit_log_world "Solicitud de /auth sin client_id." false w) as [q ->].
  eexists. split; [reflexivity|]. by destruct w.
Qed.

Lemma auth_without_client_id_witness :
  let w := run [ Register "abc" "sec" ] initial_world in
  ∃ w',
    auth_route {[ "client_id" := " " ++ nbsp ++ ideographic_space ]}
               (λ _, ("https://www.fitbit.com/oauth2/authorize", "st4t3")) w
    = (Ret (Response (jsonify "error" "Falta el client_id.") 400), w')
    ∧ active_sessions w' = active_sessions w
    ∧ state_to_client w' = state_to_client w
    ∧ effects w' = effects w.
Proof.
  intros w.
  destruct (auth_without_client_id w {[ "client_id" := " " ++ nbsp ++ ideographic_space ]}
              (λ _, ("https://www.fitbit.com/oauth2/authorize", "st4t3")))
    as (_ & w' & Hauth & Hses & Hidx & Heff & _).
  - intros raw H. apply lookup_singleton_Some in H as [_ <-]. reflexivity.
  - exists w'. split; [exact Hauth|]. split; [exact Hses|]. split; [exact Hidx | exact Heff].
Defined.

End Handlers.

(** * Further properties of the stores *)

Section StoreLaws.

Implicit Types (w : world) (p : path) (default token : json).
Implicit Types (client_id client_secret other : string).

(** Loading normalises the file or leaves it alone. Either a value is
    returned, and it is what the file holds afterwards: a file that parsed
    is left as it was, a missing file and a file that is not valid JSON now
    hold the default, and loading again returns the same value and changes
    nothing. Or [json.load] raises something other than [JSONDecodeError]:
    the exception leaves [ensure_json_file], nothing at all has changed, and
    loading again raises it again. *)
Theorem ensure_json_file_normalises p default w :
  (∃ v w',
     ensure_json_file p default w = (Ret v, w')
     ∧ read_file p w' = Holds v
     ∧ ensure_json_file p default w' = (Ret v, w')
     ∧ ((read_file p w = Holds v ∧ w' = w)
        ∨ (missing_or_invalid_json (read_file p w) ∧ v = default
           ∧ w' = (write_json p default w).2)))
  ∨ (∃ why,
       read_file p w = Unloadable why
       ∧ ensure_json_file p default w = (Raise (load_exception why), w)).
Proof.
  destruct (read_file p w) as [ | | v | why] eqn:Hf.
  - left. exists default, (write_json p default w).2.
    rewrite ensure_json_file_heals by (left; done).
    split; [done|]. split; [apply read_file_write|].
    split; [apply ensure_json_file_holds, read_file_write|].
    right. split; [by left | done].
  - left. exists default, (write_json p default w).2.
    rewrite ensure_json_file_heals by (right; done).
    split; [done|]. split; [apply read_file_write|].
    split; [apply ensure_json_file_holds, read_file_write|].
    right. split; [by right | done].
  - left. exists v, w. rewrite (ensure_json_file_holds _ _ _ _ Hf). by repeat split; auto.
  - right. exists why. split; [done|]. by apply ensure_json_file_unloadable.
Qed.

Lemma save_token_unloadable client_id token why w :
  tokens_file w = Unloadable why →
  save_token client_id token w = (Raise (load_exception why), w).
Proof.
  intros Hf. unfold save_token. unfold mbind at 1. unfold M_bind.
  by rewrite (ensure_json_file_unloadable TOKENS_FILE _ why w Hf).
Qed.

Lemma save_token_outcomes client_id token w :
  (∃ fields w0,
     load_tokens w = (Ret (JObj fields), w0)
     ∧ save_token client_id token w
       = (Ret tt, set_tokens_file (Holds (JObj (<[client_id := token]> fields))) w))
  ∨ (∃ v,
       tokens_file w = Holds v
       ∧ (∀ fields, v ≠ JObj fields)
       ∧ save_token client_id token w = (Raise TypeError, w))
  ∨ (∃ why,
       tokens_file w = Unloadable why
       ∧ save_token client_id token w = (Raise (load_exception why), w)).
Proof.
  destruct (tokens_file w) as [ | | v | why] eqn:Hf.
  - left. exists ∅, (set_tokens_file (Holds (JObj ∅)) w).
    assert (load_tokens w = (Ret (JObj ∅), set_tokens_file (Holds (JObj ∅)) w)) as Hl.
    { unfold load_tokens. rewrite ensure_json_file_heals; [done | by left]. }
    split; [done|]. by eapply save_token_mapping.
  - left. exists ∅, (set_tokens_file (Holds (JObj ∅)) w).
    assert (load_tokens w = (Ret (JObj ∅), set_tokens_file (Holds (JObj ∅)) w)) as Hl.
    { unfold load_tokens. rewrite ensure_json_file_heals; [done | by right]. }
    split; [done|]. by eapply save_token_mapping.
  - assert ((∃ fields, v = JObj fields) ∨ (∀ fields, v ≠ JObj fields)) as [[fields ->] | Hv].
    { destruct v; eauto; right; intros fields'; discriminate. }
    + left. exists fields, w.
      assert (load_tokens w = (Ret (JObj fields), w)) as Hl.
      { unfold load_tokens. by apply ensure_json_file_holds. }
      split; [done|]. by eapply save_token_mapping.
    + right. left. exists v. split; [done|]. split; [done|].
      by apply (save_token_not_mapping _ _ v).
  - right. right. exists why. split; [done|]. by apply save_token_unloadable.
Qed.

(** [save_token] is all or nothing. Either the store loads as a mapping (a
    missing file and a file that is not valid JSON load as the empty
    mapping) and the file is rewritten with [client_id] bound to the token;
    or the file holds JSON that is not a mapping and [TypeError] is raised;
    or [json.load] raises something other than [JSONDecodeError] and that
    exception is raised. When it raises, nothing at all has changed. *)
Theorem save_token_all_or_nothing client_id token w :
  (∃ fields w0,
     load_tokens w = (Ret (JObj fields), w0)
     ∧ save_token client_id token w
       = (Ret tt, set_tokens_file (Holds (JObj (<[client_id := token]> fields))) w))
  ∨ (∃ v,
       tokens_file w = Holds v
       ∧ (∀ fields, v ≠ JObj fields)
       ∧ save_token client_id token w = (Raise TypeError, w))
  ∨ (∃ why,
       tokens_file w = Unloadable why
       ∧ save_token client_id token w = (Raise (load_exception why), w)).
Proof.
  destruct (save_token_outcomes client_id token w)
    as [(fields & w0 & Hl & Hs) | [(v & Hf & Hv & Hs) | (why & Hf & Hs)]].
  - left. by exists fields, w0.
  - right. left. by exists v.
  - right. right. by exists why.
Qed.

Lemma save_token_on_mapping client_id token fields w :
  tokens_file w = Holds (JObj fields) →
  save_token client_id token w
  = (Ret tt, set_tokens_file (Holds (JObj (<[client_id := token]> fields))) w).
Proof.
  intros Hf. apply (save_token_mapping _ _ _ _ w).
  unfold load_tokens. by apply ensure_json_file_holds.
Qed.

Lemma save_token_then (k : M unit) client_id token w :
  (save_token client_id token ;; k) w
  = match save_token client_id token w with
    | (Ret _, w') => k w'
    | (Raise e, w') => (Raise e, w')
    end.
Proof. reflexivity. Qed.

(** The token store keeps one record per client id and the last writer wins:
    saving a token for a client id and then another one for the same client
    id is, in every world, the same as saving only the second. *)
Theorem save_token_overwrites client_id token1 token2 w :
  (save_token client_id token1 ;; save_token client_id token2) w
  = save_token client_id token2 w.
Proof.
  rewrite save_token_then.
  destruct (save_token_outcomes client_id token1 w)
    as [(fields & w0 & Hl & Hs) | [(v & Hf & Hv & Hs) | (why & Hf & Hs)]]; rewrite Hs.
  - rewrite (save_token_on_mapping _ _ (<[client_id := token1]> fields)) by done.
    rewrite (save_token_mapping _ _ _ _ _ Hl), insert_insert_eq. by destruct w.
  - by rewrite (save_token_not_mapping _ _ v).
  - by rewrite (save_token_unloadable _ _ why).
Qed.

(** Tokens of different client ids do not interfere: saving two of them in
    either order leaves the same world. *)
Theorem save_token_commutes client_id1 client_id2 token1 token2 w :
  client_id1 ≠ client_id2 →
  (save_token client_id1 token1 ;; save_token client_id2 token2) w
  = (save_token client_id2 token2 ;; save_token client_id1 token1) w.
Proof.
  intros Hne. rewrite !save_token_then.
  destruct (save_token_outcomes client_id1 token1 w)
    as [(fields & w0 & Hl & Hs) | [(v & Hf & Hv & Hs) | (why & Hf & Hs)]]; rewrite Hs.
  - rewrite (save_token_mapping client_id2 token2 _ _ _ Hl).
    rewrite (save_token_on_mapping _ _ (<[client_id1 := token1]> fields)) by done.
    rewrite (save_token_on_mapping _ _ (<[client_id2 := token2]> fields)) by done.
    rewrite (insert_insert_ne fields client_id1 client_id2) by done. by destruct w.
  - by rewrite (save_token_not_mapping _ _ v).
  - by rewrite (save_token_unloadable _ _ why).
Qed.

Lemma save_token_commutes_witness :
  (save_token "abc" (JObj {[ "access_token" := JStr "T" ]}) ;;
   save_token "xyz" (JObj {[ "access_token" := JStr "U" ]})) initial_world
  = (save_token "xyz" (JObj {[ "access_token" := JStr "U" ]}) ;;
     save_token "abc" (JObj {[ "access_token" := JStr "T" ]})) initial_world.
Proof.
  apply (save_token_commutes "abc" "xyz"). discriminate.
Defined.

(** *** Credentials *)

Lemma save_credentials_loop_raises client_id secret1 secret2 data e :
  save_credentials_loop client_id secret1 data = Raise e →
  save_credentials_loop client_id secret2 data = Raise e.
Proof.
  induction data as [ | v rest IH]; [done|].
  destruct v as [ | | | | | | entry]; try done.
  simpl. destruct (get_eq_str entry "client_id" client_id); [done|].
  destruct (save_credentials_loop client_id secret1 rest) as [rest1 | e1]; [done|].
  intros [= ->]. by rewrite (IH eq_refl).
Qed.

Lemma new_record_update client_id secret1 secret2 :
  <["client_secret" := JStr secret2]>
    ({[ "client_id" := JStr client_id; "client_secret" := JStr secret1 ]} : gmap string json)
  = {[ "client_id" := JStr client_id; "client_secret" := JStr secret2 ]}.
Proof.
  rewrite insert_insert_ne by done. by rewrite insert_singleton_eq.
Qed.

Lemma save_credentials_loop_again client_id secret1 secret2 data data1 :
  save_credentials_loop client_id secret1 data = Ret data1 →
  save_credentials_loop client_id secret2 data1
  = save_credentials_loop client_id secret2 data.
Proof.
  revert data1. induction data as [ | v rest IH]; intros data1.
  - intros [= <-]. simpl. rewrite new_record_matches. by rewrite new_record_update.
  - destruct v as [ | | | | | | entry]; try done.
    simpl. destruct (get_eq_str entry "client_id" client_id) eqn:Hm.
    + intros [= <-]. simpl. rewrite (updated_record_matches _ _ _ Hm).
      by rewrite insert_insert_eq.
    + destruct (save_credentials_loop client_id secret1 rest) as [rest1 | e1]; [|done].
      intros [= <-]. simpl. rewrite Hm. by rewrite (IH rest1 eq_refl).
Qed.

Lemma save_credentials_loop_exception client_id client_secret data e :
  save_credentials_loop client_id client_secret data = Raise e → e = AttributeError.
Proof.
  induction data as [ | v rest IH]; [done|].
  destruct v as [ | | | | | | entry]; simpl; try by intros [= <-].
  destruct (get_eq_str entry "client_id" client_id); [done|].
  destruct (save_credentials_loop client_id client_secret rest) as [rest' | e']; [done|].
  intros [= <-]. by apply IH.
Qed.

(** [save_credentials] is all or nothing: it returns normally having
    rewritten only the credential file, or it raises and nothing at all has
    changed. It raises [TypeError] or [AttributeError] when the file holds
    valid JSON of the wrong shape, and whatever [json.load] raises other
    than [JSONDecodeError]; a missing file and a file that is not valid JSON
    never make it raise. *)
Theorem save_credentials_all_or_nothing client_id client_secret w :
  (∃ entries', save_credentials client_id client_secret w
               = (Ret tt, set_credentials_file (Holds (JArr entries')) w))
  ∨ (∃ e v, credentials_file w = Holds v
            ∧ (e = TypeError ∨ e = AttributeError)
            ∧ save_credentials client_id client_secret w = (Raise e, w))
  ∨ (∃ why, credentials_file w = Unloadable why
            ∧ save_credentials client_id client_secret w
              = (Raise (load_exception why), w)).
Proof.
  unfold save_credentials, ensure_json_file, raise. run_M.
  destruct w as [q ses idx cf tf eff]. simpl.
  destruct cf as [ | | v | why]; simpl.
  - left. by eexists.
  - left. by eexists.
  - destruct v as [ | | | | | entries | ]; simpl;
      try (right; left; eexists _, _; split; [done|]; split; [|done]; by auto).
    destruct (save_credentials_loop client_id client_secret entries) as [entries' | e] eqn:Hloop;
      simpl.
    + left. by eexists.
    + right. left. exists e, (JArr entries). split; [done|]. split; [|done].
      right. by eapply save_credentials_loop_exception.
  - right. right. by exists why.
Qed.

(** The last secret saved for a client id wins, in every world: saving
    [(client_id, secret1)] and then [(client_id, secret2)] is the same as
    saving [(client_id, secret2)] alone. *)
Theorem save_credentials_overwrites client_id secret1 secret2 w :
  (save_credentials client_id secret1 ;; save_credentials client_id secret2) w
  = save_credentials client_id secret2 w.
Proof.
  unfold save_credentials, ensure_json_file. run_M.
  destruct w as [q ses idx cf tf eff]. simpl.
  destruct cf as [ | | v | why]; simpl.
  - rewrite new_record_matches. by rewrite new_record_update.
  - rewrite new_record_matches. by rewrite new_record_update.
  - destruct v as [ | | | | | entries | ]; simpl; try done.
    destruct (save_credentials_loop client_id secret1 entries) as [entries1 | e] eqn:H1; simpl.
    + rewrite (save_credentials_loop_again _ _ _ _ _ H1).
      destruct (save_credentials_loop client_id secret2 entries) as [entries2 | e] eqn:H2;
        [done|].
      rewrite (save_credentials_loop_raises _ _ secret1 _ _ H2) in H1. done.
    + by rewrite (save_credentials_loop_raises _ _ secret2 _ _ H1).
  - done.
Qed.

Lemma save_credentials_loop_appends client_id client_secret data :
  Forall is_dict data →
  records_for client_id data = [] →
  save_credentials_loop client_id client_secret data
  = Ret (data ++ [JObj {[ "client_id" := JStr client_id;
                          "client_secret" := JStr client_secret ]}])%list.
Proof.
  induction 1 as [ | v rest Hv Hrest IH]; [done|].
  destruct v as [ | | | | | | entry]; try done.
  simpl. destruct (get_eq_str entry "client_id" client_id); [done|].
  intros Hr. by rewrite (IH Hr).
Qed.

Lemma save_credentials_loop_updates client_id client_secret before entry after :
  Forall is_dict before →
  records_for client_id before = [] →
  get_eq_str entry "client_id" client_id = true →
  save_credentials_loop client_id client_secret (before ++ JObj entry :: after)
  = Ret (before ++ JObj (<["client_secret" := JStr client_secret]> entry) :: after)%list.
Proof.
  intros Hd Hr Hm. induction Hd as [ | v rest Hv Hrest IH]; simpl.
  - by rewrite Hm.
  - destruct v as [ | | | | | | e]; try done.
    simpl in Hr. destruct (get_eq_str e "client_id" client_id); [done|].
    by rewrite (IH Hr).
Qed.

(** Where [save_credentials] writes. For a credential list of records: when
    no record has the client id, the new record goes to the end and every
    earlier record stays in place; when some record has it, the first such
    record gets the new secret and keeps its place and its other keys, and
    nothing else in the list changes (records after it are not even
    looked at). *)
Theorem save_credentials_position client_id client_secret entries w :
  credential_list (credentials_file w) = Some entries →
  (Forall is_dict entries →
   records_for client_id entries = [] →
   save_credentials client_id client_secret w
   = (Ret tt,
      set_credentials_file
        (Holds (JArr (entries ++ [JObj {[ "client_id" := JStr client_id;
                                          "client_secret" := JStr client_secret ]}])%list))
        w))
  ∧ (∀ before entry after,
       entries = (before ++ JObj entry :: after)%list →
       Forall is_dict before →
       records_for client_id before = [] →
       get_eq_str entry "client_id" client_id = true →
       save_credentials client_id client_secret w
       = (Ret tt,
          set_credentials_file
            (Holds (JArr (before
                          ++ JObj (<["client_secret" := JStr client_secret]> entry)
                          :: after)%list))
            w)).
Proof.
  intros Hl. split.
  - intros Hd Hr. apply (save_credentials_on_list _ _ entries); [done|].
    by apply save_credentials_loop_appends.
  - intros before entry after -> Hd Hr Hm.
    apply (save_credentials_on_list _ _ (before ++ JObj entry :: after)); [done|].
    by apply save_credentials_loop_updates.
Qed.

Lemma save_credentials_position_witness :
  let first := JObj {[ "client_id" := JStr "abc"; "client_secret" := JStr "one" ]} in
  let second := JObj {[ "client_id" := JStr "xyz"; "client_secret" := JStr "two";
                        "note" := JStr "kept" ]} in
  let w := set_credentials_file (Holds (JArr [first; second; JInt 7])) initial_world in
  save_credentials "xyz" "new" w
  = (Ret tt,
     set_credentials_file
       (Holds (JArr [first;
                     JObj {[ "client_id" := JStr "xyz"; "client_secret" := JStr "new";
                             "note" := JStr "kept" ]};
                     JInt 7])) w).
Proof.
  intros first second w.
  assert (credential_list (credentials_file w) = Some [first; second; JInt 7]) as Hl
    by reflexivity.
  rewrite (proj2 (save_credentials_position "xyz" "new" _ w Hl)
             [first]
             {[ "client_id" := JStr "xyz"; "client_secret" := JStr "two";
                "note" := JStr "kept" ]}
             [JInt 7]).
  - reflexivity.
  - reflexivity.
  - by repeat constructor.
  - reflexivity.
  - reflexivity.
Defined.

(** Saving the credentials of one client id leaves the records of every
    other client id, the token file, the registry and the log alone. *)
Theorem save_credentials_frame client_id client_secret other w w' :
  other ≠ client_id →
  save_credentials client_id client_secret w = (Ret tt, w') →
  ∃ entries entries',
    credential_list (credentials_file w) = Some entries
    ∧ w' = set_credentials_file (Holds (JArr entries')) w
    ∧ records_for other entries' = records_for other entries.
Proof.
  intros Hne. unfold save_credentials, ensure_json_file, raise. run_M.
  destruct w as [q ses idx cf tf eff]. simpl.
  destruct cf as [ | | v | why]; simpl.
  - intros [= <-]. eexists [], _. split; [done|]. split; [done|].
    unfold records_for, is_record_for, List.filter, get_eq_str.
    rewrite lookup_insert_eq. simpl. by rewrite bool_decide_eq_false_2.
  - intros [= <-]. eexists [], _. split; [done|]. split; [done|].
    unfold records_for, is_record_for, List.filter, get_eq_str.
    rewrite lookup_insert_eq. simpl. by rewrite bool_decide_eq_false_2.
  - destruct v as [ | | | | | entries | ]; simpl; try done.
    destruct (save_credentials_loop client_id client_secret entries) as [entries' | e] eqn:Hloop;
      simpl; [|done].
    intros [= <-]. exists entries, entries'. split; [done|]. split; [done|].
    by apply (save_credentials_loop_other client_id client_secret).
  - done.
Qed.

Lemma save_credentials_frame_witness :
  ∃ entries entries',
    credential_list (credentials_file (save_credentials "abc" "one" initial_world).2)
    = Some entries
    ∧ (save_credentials "xyz" "two" (save_credentials "abc" "one" initial_world).2).2
      = set_credentials_file (Holds (JArr entries'))
          (save_credentials "abc" "one" initial_world).2
    ∧ records_for "abc" entries' = records_for "abc" entries.
Proof.
  apply (save_credentials_frame "xyz" "two" "abc"
           (save_credentials "abc" "one" initial_world).2).
  - discriminate.
  - reflexivity.
Defined.

End StoreLaws.

(** * Further properties of the session registry *)

Section RegistryLaws.

Implicit Types (w : world) (index : gmap string string).
Implicit Types (client_id client_secret state other : string).

Lemma pruned_lookup client_id index state :
  pop_states (stale_states client_id index) index !! state
  = match index !! state with
    | Some c => if decide (c = client_id) then None else Some c
    | None => None
    end.
Proof.
  rewrite pop_states_lookup.
  destruct (index !! state) as [c | ] eqn:Hc.
  - destruct (decide (c = client_id)) as [-> | Hne].
    + rewrite decide_True; [done|]. by apply elem_of_stale_states.
    + rewrite decide_False; [done|].
      intros Hin%elem_of_stale_states. congruence.
  - by destruct (decide _).
Qed.

Lemma pruned_twice client_id index :
  let pruned := pop_states (stale_states client_id index) index in
  pop_states (stale_states client_id pruned) pruned = pruned.
Proof.
  intros pruned. apply map_eq. intros state. rewrite pruned_lookup.
  subst pruned. rewrite pruned_lookup.
  destruct (index !! state) as [c | ]; [|done].
  destruct (decide (c = client_id)); [done|]. by rewrite decide_False.
Qed.

(** What [register_session] touches: the session of [client_id] becomes
    exactly [{"secret": client_secret}] (a state recorded before is gone),
    the index loses the entries that pointed at [client_id] and keeps every
    other entry, and the sessions of the other clients, the files, the log
    and the outside calls stay as they were. *)
Theorem register_session_frame client_id client_secret w :
  let w' := (register_session client_id client_secret w).2 in
  active_sessions w' !! client_id = Some {[ "secret" := client_secret ]}
  ∧ (∀ other, other ≠ client_id →
              active_sessions w' !! other = active_sessions w !! other)
  ∧ (∀ state other,
       state_to_client w' !! state = Some other
       ↔ state_to_client w !! state = Some other ∧ other ≠ client_id)
  ∧ gui_log_queue w' = gui_log_queue w
  ∧ credentials_file w' = credentials_file w
  ∧ tokens_file w' = tokens_file w
  ∧ effects w' = effects w.
Proof.
  intros w'. subst w'. rewrite register_session_sessions.
  split; [apply lookup_insert_eq|].
  split; [intros other Hne; by apply lookup_insert_ne|].
  split; [|done].
  intros state other. rewrite register_session_index.
  destruct (state_to_client w !! state) as [c | ].
  - destruct (decide (c = client_id)) as [-> | Hne].
    + split; [done | by intros [[= ->] ?]].
    + split; [by intros [= ->] | by intros [[= ->] _]].
  - split; [done | by intros [? _]].
Qed.

(** The last registration wins: registering a client id twice, with any two
    secrets, leaves the world that the second registration alone leaves. *)
Theorem register_session_overwrites client_id secret1 secret2 w :
  (register_session client_id secret1 ;; register_session client_id secret2) w
  = register_session client_id secret2 w.
Proof.
  unfold mbind, M_bind. rewrite !register_session_world.
  destruct w as [q ses idx cf tf eff]. simpl.
  rewrite insert_insert_eq. by rewrite pruned_twice.
Qed.

End RegistryLaws.

(** * Further properties of the handlers *)

Section HandlerLaws.

Implicit Types (w : world) (args : gmap string string) (endpoint : token_endpoint).
Implicit Types (client_id client_secret state url other : string).

(** *** Shared facts *)

Lemma callback_route_error args url endpoint w error :
  args !! "error" = Some error →
  ∃ q,
    callback_route args url endpoint w
    = (Ret (Response (Html ("<html><body><h1>Autenticación fallida</h1><p>"
                            ++ or_else (args !! "error_description") error
                            ++ "</p></body></html>")) 400),
       set_gui_log_queue q w).
Proof.
  intros He. unfold callback_route. rewrite He. unfold mbind, M_bind.
  destruct (emit_log_world ("Error devuelto por Fitbit: "
              ++ or_else (args !! "error_description") error) false w) as [q ->].
  by exists q.
Qed.

Lemma auth_route_unregistered args authorization_url w client_id :
  strip (default "" (args !! "client_id")) = client_id →
  client_id ≠ "" →
  active_sessions w !! client_id = None →
  ∃ q,
    auth_route args authorization_url w
    = (Ret (Response (jsonify "error"
              "Client ID no registrado. Inicia la autenticación desde la aplicación.") 400),
       set_gui_log_queue q w).
Proof.
  intros Hc Hne Hses. unfold auth_route. cbv zeta. rewrite Hc.
  rewrite (truthy_true _ Hne). cbn [negb]. unfold_M. rewrite Hses.
  unfold mbind, M_bind.
  destruct (emit_log_world
              "Client ID no registrado. Inicia la autenticación desde la aplicación."
              false w) as [q ->].
  by exists q.
Qed.

Lemma auth_route_assigns_frame args authorization_url w client_id info url state :
  strip (default "" (args !! "client_id")) = client_id →
  client_id ≠ "" →
  active_sessions w !! client_id = Some info →
  info ≠ ∅ →
  authorization_url client_id = (url, state) →
  ∃ w',
    auth_route args authorization_url w
    = (Ret (Response (jsonify "message" "Autorización iniciada. Revisa el navegador.") 200),
       w')
    ∧ state_to_client w' !! state = Some client_id
    ∧ active_sessions w' !! client_id = Some (<["state" := state]> info)
    ∧ (∀ other, other ≠ client_id →
                active_sessions w' !! other = active_sessions w !! other)
    ∧ (∀ other, other ≠ state →
                state_to_client w' !! other = state_to_client w !! other)
    ∧ effects w' = (effects w ++ [OpenBrowser url])%list
    ∧ credentials_file w' = credentials_file w
    ∧ tokens_file w' = tokens_file w.
Proof.
  intros Hc Hne Hinfo Hd Hurl.
  destruct (auth_route_assigns args authorization_url w client_id info url state
              Hc Hne Hinfo Hd Hurl) as [q ->].
  eexists. split; [reflexivity|]. simpl.
  split; [apply lookup_insert_eq|]. split; [apply lookup_insert_eq|].
  split; [intros other Ho; by apply lookup_insert_ne|].
  split; [intros other Ho; by apply lookup_insert_ne|]. done.
Qed.

(** *** [/auth] *)

(** [/auth] always answers, with 200 or 400, and never touches the files.
    It answers 200 exactly when the stripped [client_id] is not empty and a
    session is registered under it; when it answers 400 the sessions, the
    index and the outside calls are as before (no state assigned, no browser
    opened). *)
Theorem auth_route_answers args authorization_url w :
  let client_id := strip (default "" (args !! "client_id")) in
  ∃ r w',
    auth_route args authorization_url w = (Ret r, w')
    ∧ credentials_file w' = credentials_file w
    ∧ tokens_file w' = tokens_file w
    ∧ ((status r = 200
        ∧ client_id ≠ ""
        ∧ ∃ info, active_sessions w !! client_id = Some info ∧ info ≠ ∅)
       ∨ (status r = 400
          ∧ (client_id = ""
             ∨ active_sessions w !! client_id = None
             ∨ active_sessions w !! client_id = Some ∅)
          ∧ active_sessions w' = active_sessions w
          ∧ state_to_client w' = state_to_client w
          ∧ effects w' = effects w)).
Proof.
  intros client_id. unfold auth_route. fold client_id.
  destruct w as [q ses idx cf tf eff]. unfold truthy, truthy_dict.
  destruct (decide (client_id = "")) as [Hc | Hc].
  - rewrite bool_decide_eq_true_2 by done. simpl. run_M. unfold emit_log, modify.
    destruct q; simpl; eexists _, _; (split; [reflexivity|]); simpl; eauto 10.
  - rewrite bool_decide_eq_false_2 by done. simpl. run_M.
    destruct (ses !! client_id) as [info | ] eqn:Hinfo.
    + destruct (decide (info = ∅)) as [He | He].
      * rewrite bool_decide_eq_true_2 by done. simpl. unfold emit_log, modify.
        subst info.
        destruct q; simpl; eexists _, _; (split; [reflexivity|]); simpl; eauto 10.
      * rewrite bool_decide_eq_false_2 by done. simpl.
        destruct (authorization_url client_id) as [url state]. unfold emit_log, modify.
        destruct q; simpl; eexists _, _; (split; [reflexivity|]); simpl;
          (split; [done|]); (split; [done|]); left; eauto.
    + unfold emit_log, modify.
      destruct q; simpl; eexists _, _; (split; [reflexivity|]); simpl; eauto 10.
Qed.

(** A successful [/auth]: the generated state is recorded in the session and
    in the index, the secret of the session is kept, the browser is opened
    once with the authorization URL, and the sessions of the other clients
    and the other index entries are not touched. *)
Theorem auth_route_assigns_state args authorization_url w client_id info url state :
  strip (default "" (args !! "client_id")) = client_id →
  client_id ≠ "" →
  active_sessions w !! client_id = Some info →
  info ≠ ∅ →
  authorization_url client_id = (url, state) →
  ∃ w',
    auth_route args authorization_url w
    = (Ret (Response (jsonify "message" "Autorización iniciada. Revisa el navegador.") 200),
       w')
    ∧ state_to_client w' !! state = Some client_id
    ∧ active_sessions w' !! client_id = Some (<["state" := state]> info)
    ∧ (<["state" := state]> info) !! "secret" = info !! "secret"
    ∧ (∀ other, other ≠ client_id →
                active_sessions w' !! other = active_sessions w !! other)
    ∧ (∀ other, other ≠ state →
                state_to_client w' !! other = state_to_client w !! other)
    ∧ effects w' = (effects w ++ [OpenBrowser url])%list.
Proof.
  intros Hc Hne Hinfo Hd Hurl.
  destruct (auth_route_assigns args authorization_url w client_id info url state
              Hc Hne Hinfo Hd Hurl) as [q ->].
  eexists. split; [reflexivity|]. simpl.
  split; [apply lookup_insert_eq|]. split; [apply lookup_insert_eq|].
  split; [by apply lookup_insert_ne|].
  split; [intros other Ho; by apply lookup_insert_ne|].
  split; [intros other Ho; by apply lookup_insert_ne|]. done.
Qed.

Lemma auth_route_assigns_state_witness :
  let w := run [ Register "abc" "sec"; Register "xyz" "other" ] initial_world in
  ∃ w',
    auth_route {[ "client_id" := nbsp ++ "abc" ++ nbsp ]}
               (λ _, ("https://www.fitbit.com/oauth2/authorize?state=st4t3", "st4t3")) w
    = (Ret (Response (jsonify "message" "Autorización iniciada. Revisa el navegador.") 200),
       w')
    ∧ state_to_client w' !! "st4t3" = Some "abc"
    ∧ active_sessions w' !! "abc" = Some {[ "secret" := "sec"; "state" := "st4t3" ]}
    ∧ effects w' = [OpenBrowser "https://www.fitbit.com/oauth2/authorize?state=st4t3"].
Proof.
  intros w.
  destruct (auth_route_assigns_state {[ "client_id" := nbsp ++ "abc" ++ nbsp ]}
              (λ _, ("https://www.fitbit.com/oauth2/authorize?state=st4t3", "st4t3")) w
              "abc" {[ "secret" := "sec" ]}
              "https://www.fitbit.com/oauth2/authorize?state=st4t3" "st4t3")
    as (w' & Hauth & Hidx & Hses & _ & _ & _ & Heff).
  - reflexivity.
  - discriminate.
  - reflexivity.
  - apply map_non_empty_singleton.
  - reflexivity.
  - exists w'. split; [exact Hauth|]. split; [exact Hidx|]. split; [exact Hses | exact Heff].
Defined.

(** *** [/callback] *)

(** A successful exchange: the handler answers 200, the token is in the token
    store under the client id of the session (the other records kept), the
    session is evicted, the state is consumed, the token endpoint has been
    called once, and the credential file is untouched. *)
Theorem callback_success_stores_token w args url endpoint state client_id info
    token fields w0 :
  args !! "error" = None →
  args !! "state" = Some state →
  state ≠ "" →
  live_session w state = Some (client_id, info) →
  endpoint client_id (info !! "secret") state url = Token token →
  load_tokens w = (Ret (JObj fields), w0) →
  ∃ w',
    callback_route args url endpoint w = (Ret (Response (Html completed_page) 200), w')
    ∧ tokens_file w' = Holds (JObj (<[client_id := token]> fields))
    ∧ active_sessions w' = delete client_id (active_sessions w)
    ∧ state_to_client w' = delete state (state_to_client w)
    ∧ effects w' = (effects w ++ [FetchToken client_id (info !! "secret") state url])%list
    ∧ credentials_file w' = credentials_file w.
Proof.
  intros He Hs Hne Hlive Hok Hload.
  destruct (callback_route_fetches args url endpoint w state client_id info
              He Hs Hne Hlive) as (r & w' & Hcb & Hidx & Heff & Hcred & Hout).
  rewrite Hok in Hout. rewrite (save_token_mapping _ _ _ _ _ Hload) in Hout.
  destruct Hout as [(-> & _ & Htok & Hses) | (e & _ & Hraise & _)]; [|done].
  exists w'. by repeat split.
Qed.

Lemma callback_success_stores_token_witness :
  let w := run [ Register "abc" "sec";
                 Auth {[ "client_id" := "abc" ]}
                      (λ _, ("https://www.fitbit.com/oauth2/authorize", "st4t3")) ]
               (set_tokens_file (Holds (JObj {[ "xyz" := JStr "old" ]})) initial_world) in
  let token := JObj {[ "access_token" := JStr "T"; "refresh_token" := JStr "R" ]} in
  ∃ w',
    callback_route {[ "state" := "st4t3"; "code" := "XYZ" ]}
                   "http://localhost:5000/callback?state=st4t3&code=XYZ"
                   (λ _ _ _ _, Token token) w
    = (Ret (Response (Html completed_page) 200), w')
    ∧ tokens_file w' = Holds (JObj {[ "abc" := token; "xyz" := JStr "old" ]})
    ∧ active_sessions w' = ∅
    ∧ state_to_client w' = ∅.
Proof.
  intros w token.
  destruct (callback_success_stores_token w
              {[ "state" := "st4t3"; "code" := "XYZ" ]}
              "http://localhost:5000/callback?state=st4t3&code=XYZ"
              (λ _ _ _ _, Token token)
              "st4t3" "abc" {[ "secret" := "sec"; "state" := "st4t3" ]} token
              {[ "xyz" := JStr "old" ]} w)
    as (w' & Hcb & Htok & Hses & Hidx & _).
  - reflexivity.
  - reflexivity.
  - discriminate.
  - vm_compute. reflexivity.
  - reflexivity.
  - reflexivity.
  - exists w'. split; [exact Hcb|]. split; [exact Htok|].
    split; [rewrite Hses | rewrite Hidx]; vm_compute; reflexivity.
Defined.

(** A token file that holds valid JSON which is not a mapping loses the
    token: the state is consumed and the token endpoint is called, then
    [save_token] raises [TypeError] out of the handler; the token file is as
    before and the session is still registered. *)
Theorem callback_token_store_not_mapping w args url endpoint state client_id info
    token v :
  args !! "error" = None →
  args !! "state" = Some state →
  state ≠ "" →
  live_session w state = Some (client_id, info) →
  endpoint client_id (info !! "secret") state url = Token token →
  tokens_file w = Holds v →
  (∀ fields, v ≠ JObj fields) →
  ∃ w',
    callback_route args url endpoint w = (Raise TypeError, w')
    ∧ tokens_file w' = Holds v
    ∧ active_sessions w' = active_sessions w
    ∧ state_to_client w' = delete state (state_to_client w)
    ∧ effects w' = (effects w ++ [FetchToken client_id (info !! "secret") state url])%list.
Proof.
  intros He Hs Hne Hlive Hok Hf Hv.
  destruct (callback_route_fetches args url endpoint w state client_id info
              He Hs Hne Hlive) as (r & w' & Hcb & Hidx & Heff & Hcred & Hout).
  rewrite Hok in Hout.
  pose proof (save_token_not_mapping client_id token v w Hf Hv) as Hraise.
  destruct Hout as [(_ & Hret & _) | (e & -> & He' & Htok & Hses)].
  - rewrite Hraise in Hret. done.
  - rewrite Hraise in He'. simpl in He'. injection He' as <-.
    exists w'. rewrite Htok. by repeat split.
Qed.

Lemma callback_token_store_not_mapping_witness :
  let w := run [ Register "abc" "sec";
                 Auth {[ "client_id" := "abc" ]}
                      (λ _, ("https://www.fitbit.com/oauth2/authorize", "st4t3")) ]
               (set_tokens_file (Holds (JArr [])) initial_world) in
  ∃ w',
    callback_route {[ "state" := "st4t3"; "code" := "XYZ" ]}
                   "http://localhost:5000/callback?state=st4t3&code=XYZ"
                   (λ _ _ _ _, Token (JObj {[ "access_token" := JStr "T" ]})) w
    = (Raise TypeError, w')
    ∧ tokens_file w' = Holds (JArr [])
    ∧ active_sessions w' = active_sessions w.
Proof.
  intros w.
  destruct (callback_token_store_not_mapping w
              {[ "state" := "st4t3"; "code" := "XYZ" ]}
              "http://localhost:5000/callback?state=st4t3&code=XYZ"
              (λ _ _ _ _, Token (JObj {[ "access_token" := JStr "T" ]}))
              "st4t3" "abc" {[ "secret" := "sec"; "state" := "st4t3" ]}
              (JObj {[ "access_token" := JStr "T" ]}) (JArr []))
    as (w' & Hcb & Htok & Hses & _).
  - reflexivity.
  - reflexivity.
  - discriminate.
  - vm_compute. reflexivity.
  - reflexivity.
  - reflexivity.
  - intros fields. discriminate.
  - exists w'. split; [exact Hcb|]. split; [exact Htok | exact Hses].
Defined.

Lemma live_session_Some w state client_id info :
  live_session w state = Some (client_id, info) →
  state_to_client w !! state = Some client_id
  ∧ client_id ≠ ""
  ∧ active_sessions w !! client_id = Some info
  ∧ info ≠ ∅.
Proof.
  unfold live_session, truthy, truthy_dict.
  destruct (state_to_client w !! state) as [c | ]; [|done].
  destruct (decide (c = "")) as [Hc | Hc];
    [by rewrite bool_decide_eq_true_2 | rewrite bool_decide_eq_false_2 by done].
  simpl. destruct (active_sessions w !! c) as [i | ] eqn:Hi; [|done].
  destruct (decide (i = ∅)) as [Hd | Hd];
    [by rewrite bool_decide_eq_true_2 | rewrite bool_decide_eq_false_2 by done].
  simpl. by intros [= <- <-].
Qed.

Lemma live_session_intro w state client_id info :
  state_to_client w !! state = Some client_id →
  client_id ≠ "" →
  active_sessions w !! client_id = Some info →
  info ≠ ∅ →
  live_session w state = Some (client_id, info).
Proof.
  intros Hidx Hc Hses Hd. unfold live_session.
  by rewrite Hidx, (truthy_true _ Hc), Hses, (truthy_dict_true _ Hd).
Qed.

(** Once a callback has succeeded the session is gone: a new [/auth] for the
    same client id is refused with 400, assigns no state and opens no
    browser, until the client id is registered again. *)
Theorem auth_after_success_refused w args url endpoint state client_id info
    token fields w0 auth_args authorization_url :
  args !! "error" = None →
  args !! "state" = Some state →
  state ≠ "" →
  live_session w state = Some (client_id, info) →
  endpoint client_id (info !! "secret") state url = Token token →
  load_tokens w = (Ret (JObj fields), w0) →
  strip (default "" (auth_args !! "client_id")) = client_id →
  let w' := (callback_route args url endpoint w).2 in
  ∃ r w'',
    auth_route auth_args authorization_url w' = (Ret r, w'')
    ∧ status r = 400
    ∧ active_sessions w'' !! client_id = None
    ∧ state_to_client w'' = state_to_client w'
    ∧ effects w'' = effects w'.
Proof.
  intros He Hs Hne Hlive Hok Hload Hstrip w'.
  destruct (live_session_Some _ _ _ _ Hlive) as (_ & Hc & _ & _).
  destruct (callback_route_fetches args url endpoint w state client_id info
              He Hs Hne Hlive) as (r & w1 & Hcb & _ & _ & _ & Hout).
  rewrite Hok in Hout. rewrite (save_token_mapping _ _ _ _ _ Hload) in Hout.
  destruct Hout as [(_ & _ & _ & Hses) | (e & _ & Hraise & _)]; [|done].
  assert (w' = w1) as -> by (subst w'; by rewrite Hcb).
  assert (active_sessions w1 !! client_id = None) as Hgone.
  { rewrite Hses. apply lookup_delete_eq. }
  destruct (auth_route_unregistered auth_args authorization_url w1 client_id
              Hstrip Hc Hgone) as [q ->].
  eexists _, _. split; [reflexivity|]. split; [reflexivity|].
  by destruct w1.
Qed.

Lemma auth_after_success_refused_witness :
  let w := run [ Register "abc" "sec";
                 Auth {[ "client_id" := "abc" ]}
                      (λ _, ("https://www.fitbit.com/oauth2/authorize", "st4t3")) ]
               initial_world in
  let w' := (callback_route {[ "state" := "st4t3" ]} "http://localhost:5000/callback?state=st4t3"
               (λ _ _ _ _, Token (JObj {[ "access_token" := JStr "T" ]})) w).2 in
  ∃ r w'',
    auth_route {[ "client_id" := nbsp ++ "abc" ]}
               (λ _, ("https://www.fitbit.com/oauth2/authorize", "again")) w' = (Ret r, w'')
    ∧ status r = 400
    ∧ active_sessions w'' !! "abc" = None
    ∧ state_to_client w'' = state_to_client w'
    ∧ effects w'' = effects w'.
Proof.
  intros w.
  apply (auth_after_success_refused w {[ "state" := "st4t3" ]}
           "http://localhost:5000/callback?state=st4t3"
           (λ _ _ _ _, Token (JObj {[ "access_token" := JStr "T" ]}))
           "st4t3" "abc" {[ "secret" := "sec"; "state" := "st4t3" ]}
           (JObj {[ "access_token" := JStr "T" ]}) ∅
           (set_tokens_file (Holds (JObj ∅)) w)
           {[ "client_id" := nbsp ++ "abc" ]}).
  - reflexivity.
  - reflexivity.
  - discriminate.
  - vm_compute. reflexivity.
  - reflexivity.
  - reflexivity.
  - reflexivity.
Defined.

(** After a failed exchange the session is still registered: a new [/auth]
    for the same client id succeeds without registering again, and the state
    it assigns resolves to the same client id and the same secret. *)
Theorem auth_after_failed_exchange w args url endpoint state client_id info exc
    auth_args authorization_url url' state' :
  args !! "error" = None →
  args !! "state" = Some state →
  state ≠ "" →
  live_session w state = Some (client_id, info) →
  endpoint client_id (info !! "secret") state url = FetchError exc →
  strip (default "" (auth_args !! "client_id")) = client_id →
  authorization_url client_id = (url', state') →
  let w' := (callback_route args url endpoint w).2 in
  ∃ w'',
    auth_route auth_args authorization_url w'
    = (Ret (Response (jsonify "message" "Autorización iniciada. Revisa el navegador.") 200),
       w'')
    ∧ live_session w'' state' = Some (client_id, <["state" := state']> info)
    ∧ (<["state" := state']> info) !! "secret" = info !! "secret".
Proof.
  intros He Hs Hne Hlive Hfail Hstrip Hurl w'.
  destruct (live_session_Some _ _ _ _ Hlive) as (_ & Hc & Hses & Hd).
  destruct (callback_route_fetches args url endpoint w state client_id info
              He Hs Hne Hlive) as (r & w1 & Hcb & _ & _ & _ & Hout).
  rewrite Hfail in Hout. destruct Hout as (_ & _ & Hses1).
  assert (w' = w1) as -> by (subst w'; by rewrite Hcb).
  rewrite <- Hses1 in Hses.
  destruct (auth_route_assigns_frame auth_args authorization_url w1 client_id info
              url' state' Hstrip Hc Hses Hd Hurl)
    as (w'' & Hauth & Hidx & Hses'' & _).
  exists w''. split; [done|]. split; [|by apply lookup_insert_ne].
  apply live_session_intro; [done | done | done | apply insert_non_empty].
Qed.

Lemma auth_after_failed_exchange_witness :
  let w := run [ Register "abc" "sec";
                 Auth {[ "client_id" := "abc" ]}
                      (λ _, ("https://www.fitbit.com/oauth2/authorize", "st4t3")) ]
               initial_world in
  let w' := (callback_route {[ "state" := "st4t3" ]} "http://localhost:5000/callback?state=st4t3"
               (λ _ _ _ _, FetchError "invalid_grant") w).2 in
  ∃ w'',
    auth_route {[ "client_id" := "abc" ++ ideographic_space ]}
               (λ _, ("https://www.fitbit.com/oauth2/authorize", "again")) w'
    = (Ret (Response (jsonify "message" "Autorización iniciada. Revisa el navegador.") 200),
       w'')
    ∧ live_session w'' "again" = Some ("abc", {[ "secret" := "sec"; "state" := "again" ]}).
Proof.
  intros w w'.
  destruct (auth_after_failed_exchange w {[ "state" := "st4t3" ]}
              "http://localhost:5000/callback?state=st4t3"
              (λ _ _ _ _, FetchError "invalid_grant")
              "st4t3" "abc" {[ "secret" := "sec"; "state" := "st4t3" ]} "invalid_grant"
              {[ "client_id" := "abc" ++ ideographic_space ]}
              (λ _, ("https://www.fitbit.com/oauth2/authorize", "again"))
              "https://www.fitbit.com/oauth2/authorize" "again")
    as (w'' & Hauth & Hlive & _).
  - reflexivity.
  - reflexivity.
  - discriminate.
  - vm_compute. reflexivity.
  - reflexivity.
  - reflexivity.
  - reflexivity.
  - exists w''. split; [exact Hauth|]. rewrite Hlive. vm_compute. reflexivity.
Defined.

(** What [/callback] never does: it creates no session and no index entry
    (both maps can only shrink), it does not touch the credential file, it
    writes the token file only when it answers 200, and it opens no
    browser. *)
Theorem callback_route_only_removes args url endpoint w :
  let w' := (callback_route args url endpoint w).2 in
  state_to_client w' ⊆ state_to_client w
  ∧ active_sessions w' ⊆ active_sessions w
  ∧ credentials_file w' = credentials_file w
  ∧ (tokens_file w' = tokens_file w
     ∨ (callback_route args url endpoint w).1 = Ret (Response (Html completed_page) 200))
  ∧ ∀ u, OpenBrowser u ∈ effects w' → OpenBrowser u ∈ effects w.
Proof.
  intros w'. split; [|split].
  - destruct (callback_route_registry args url endpoint w)
      as [[_ Hi] | (popped & Hi & _)]; subst w'; rewrite Hi; [done|].
    apply delete_subseteq.
  - destruct (callback_route_registry args url endpoint w)
      as [[Hs _] | (popped & _ & [Hs | (c & _ & Hs)])]; subst w'; rewrite Hs; [done|done|].
    apply delete_subseteq.
  - subst w'. destruct (args !! "error") as [err | ] eqn:He.
    { destruct (callback_route_error args url endpoint w err He) as [q ->].
      destruct w; simpl; auto. }
    destruct (truthy_opt (args !! "state")) eqn:Hts; cycle 1.
    { destruct (callback_missing_state_rejected w args url endpoint He Hts) as [q ->].
      destruct w; simpl; auto. }
    destruct (args !! "state") as [state | ] eqn:Hs; [|done]. simpl in Hts.
    assert (state ≠ "") as Hne.
    { intros ->. done. }
    destruct (live_session w state) as [[client_id info] | ] eqn:Hlive.
    + destruct (callback_route_fetches args url endpoint w state client_id info
                  He Hs Hne Hlive) as (r & w1 & -> & _ & Heff & Hc & Hout).
      simpl. split; [done|]. split.
      * destruct (endpoint client_id (info !! "secret") state url).
        -- destruct Hout as [(-> & _) | (e & _ & _ & Ht & _)]; auto.
        -- destruct Hout as (_ & Ht & _); auto.
      * intros u. rewrite Heff. intros [Hin | Hin]%elem_of_app; [done|].
        apply list_elem_of_singleton in Hin. done.
    + destruct (callback_route_not_found args url endpoint w state He Hs Hne Hlive)
        as [q ->].
      destruct w; simpl; auto.
Qed.

(** *** Logging *)

Ltac unfold_handlers :=
  unfold callback_route, auth_route, register_session, pop_state, fetch_token,
    session_not_found, missing_state, save_token, ensure_json_file, set_item,
    emit_log, without_log;
  unfold_M.

(** The log queue is write-only for the core: with no queue attached, every
    call gives the same answer and leaves the same sessions, index, files
    and outside calls as with a queue attached. *)
Theorem handlers_ignore_log w :
  (∀ client_id client_secret,
     register_session client_id client_secret (without_log w)
     = ((register_session client_id client_secret w).1,
        without_log (register_session client_id client_secret w).2))
  ∧ (∀ args authorization_url,
       auth_route args authorization_url (without_log w)
       = ((auth_route args authorization_url w).1,
          without_log (auth_route args authorization_url w).2))
  ∧ (∀ args url endpoint,
       callback_route args url endpoint (without_log w)
       = ((callback_route args url endpoint w).1,
          without_log (callback_route args url endpoint w).2)).
Proof.
  destruct w as [q ses idx cf tf eff]. split; [|split].
  - intros. reflexivity.
  - intros args authorization_url. unfold_handlers. simpl.
    destruct (truthy (strip (default "" (args !! "client_id")))); simpl;
      [|by destruct q].
    destruct (ses !! strip (default "" (args !! "client_id"))) as [info | ];
      [|by destruct q].
    destruct (truthy_dict info); [|by destruct q].
    destruct (authorization_url _) as [u st]. simpl. by destruct q.
  - intros args url endpoint. unfold_handlers. simpl.
    destruct (args !! "error"); [by destruct q|].
    destruct (args !! "state") as [state | ]; [|by destruct q].
    destruct (truthy state); simpl; [|by destruct q].
    destruct (idx !! state) as [c | ]; simpl; [|by destruct q].
    destruct (truthy c); simpl; [|by destruct q].
    destruct (ses !! c) as [info | ]; simpl; [|by destruct q].
    destruct (truthy_dict info); simpl; [|by destruct q].
    destruct (endpoint c (info !! "secret") state url) as [token | exc]; simpl;
      [|by destruct q].
    unfold raise.
    destruct tf as [ | | v | why]; simpl; [by destruct q | by destruct q | | done].
    destruct v; simpl; try done. by destruct q.
Qed.

(** No answer without a log line: with a queue attached, [/auth] appends
    exactly one ["log"] event, and [/callback] appends exactly one event to
    every answer it returns, of type ["status"] when it answers 200 and of
    type ["log"] otherwise; nothing already in the queue is changed, and a
    callback that raises appends nothing. *)
Theorem handlers_log_once w q :
  gui_log_queue w = Some q →
  (∀ args authorization_url,
     ∃ message,
       gui_log_queue (auth_route args authorization_url w).2
       = Some (q ++ [LogEvent "log" message])%list)
  ∧ (∀ args url endpoint,
       match (callback_route args url endpoint w).1 with
       | Ret r =>
           ∃ message,
             gui_log_queue (callback_route args url endpoint w).2
             = Some (q ++ [LogEvent (if bool_decide (status r = 200) then "status" else "log")
                                    message])%list
       | Raise _ => gui_log_queue (callback_route args url endpoint w).2 = Some q
       end).
Proof.
  destruct w as [q0 ses idx cf tf eff]. simpl. intros ->. split.
  - intros args authorization_url. unfold_handlers. simpl.
    destruct (truthy (strip (default "" (args !! "client_id")))); simpl; eauto.
    destruct (ses !! strip (default "" (args !! "client_id"))) as [info | ]; simpl; eauto.
    destruct (truthy_dict info); simpl; eauto.
    destruct (authorization_url _) as [u st]. simpl. eauto.
  - intros args url endpoint. unfold_handlers. simpl.
    destruct (args !! "error"); simpl; eauto.
    destruct (args !! "state") as [state | ]; simpl; eauto.
    destruct (truthy state); simpl; eauto.
    destruct (idx !! state) as [c | ]; simpl; eauto.
    destruct (truthy c); simpl; eauto.
    destruct (ses !! c) as [info | ]; simpl; eauto.
    destruct (truthy_dict info); simpl; eauto.
    destruct (endpoint c (info !! "secret") state url) as [token | exc]; simpl; eauto.
    unfold raise.
    destruct tf as [ | | v | why]; simpl; eauto.
    destruct v; simpl; eauto.
Qed.

Lemma handlers_log_once_witness :
  let w := (set_log_queue [] ;; register_session "abc" "sec" ;;
            auth_route {[ "client_id" := "abc" ]}
                       (λ _, ("https://www.fitbit.com/oauth2/authorize", "st4t3")) ;;
            mret tt) initial_world in
  ∃ message,
    gui_log_queue
      (callback_route {[ "state" := "st4t3" ]} "http://localhost:5000/callback?state=st4t3"
         (λ _ _ _ _, Token (JObj {[ "access_token" := JStr "T" ]})) w.2).2
    = Some [ LogEvent "log" "Abriendo navegador para autorizar la app abc...";
             LogEvent "status" message ].
Proof.
  intros w.
  pose proof (proj2 (handlers_log_once w.2
                       [LogEvent "log" "Abriendo navegador para autorizar la app abc..."]
                       eq_refl)
                {[ "state" := "st4t3" ]} "http://localhost:5000/callback?state=st4t3"
                (λ _ _ _ _, Token (JObj {[ "access_token" := JStr "T" ]}))) as H.
  exact H.
Defined.

(** *** Other clients *)

Lemma foreign_operation a state_a info w o :
  live_session w state_a = Some (a, info) →
  foreign_to a state_a w o →
  live_session (run_operation w o) state_a = Some (a, info).
Proof.
  intros Hlive Ho.
  destruct (live_session_Some _ _ _ _ Hlive) as (Hidx & Ha & Hses & Hd).
  destruct o as [b secret_b | args authorization_url | args url endpoint];
    cbn [run_operation foreign_to] in *.
  - apply live_session_intro; [|done| |done].
    + rewrite register_session_index, Hidx. by rewrite decide_False.
    + rewrite register_session_sessions. by rewrite lookup_insert_ne.
  - destruct Ho as [Hb Hstate].
    destruct (auth_route_registry args authorization_url w)
      as [[Hs Hi] | (info_b & _ & Hs & Hi)];
      apply live_session_intro; try done; rewrite ?Hs, ?Hi; try done.
    + by rewrite lookup_insert_ne.
    + by rewrite lookup_insert_ne.
  - destruct (args !! "error") as [err | ] eqn:He.
    { destruct (callback_route_error args url endpoint w err He) as [q ->].
      by destruct w. }
    destruct (truthy_opt (args !! "state")) eqn:Hts; cycle 1.
    { destruct (callback_missing_state_rejected w args url endpoint He Hts) as [q ->].
      by destruct w. }
    destruct (args !! "state") as [state | ] eqn:Hs; [|done]. simpl in Hts.
    assert (state ≠ "") as Hne by (intros ->; done).
    assert (state ≠ state_a) as Hst by (intros ->; done).
    destruct (live_session w state) as [[c info_c] | ] eqn:Hlive_c.
    + destruct (live_session_Some _ _ _ _ Hlive_c) as (Hidx_c & _).
      assert (a ≠ c) as Hac by congruence.
      destruct (callback_route_fetches args url endpoint w state c info_c
                  He Hs Hne Hlive_c) as (r & w1 & -> & Hi & _ & _ & Hout).
      cbn [snd]. apply live_session_intro; [|done| |done].
      * by rewrite Hi, lookup_delete_ne.
      * destruct (endpoint c (info_c !! "secret") state url).
        -- destruct Hout as [(_ & _ & _ & ->) | (e & _ & _ & _ & ->)]; [|done].
           by rewrite lookup_delete_ne.
        -- destruct Hout as (_ & _ & ->). done.
    + destruct (callback_route_not_found args url endpoint w state He Hs Hne Hlive_c)
        as [q ->].
      apply live_session_intro; [|done| |done].
      * destruct w; simpl in *. by rewrite lookup_delete_ne.
      * by destruct w.
Qed.

(** A pending authorization survives whatever is done for other clients.
    When a state resolves to the session of a client, then after any
    sequence of calls made for other clients, in any order (registrations
    of other client ids; [/auth] requests for other client ids that are
    given other states; callbacks that carry an error, or no state, or a
    state that the index does not map to this client), the state still
    resolves to the same client id and the same session; and a callback
    that then presents the state calls the token endpoint with this client
    id and the secret of this session. *)
Theorem other_clients_do_not_interfere w a state_a info ops :
  live_session w state_a = Some (a, info) →
  others_only a state_a ops w →
  live_session (run ops w) state_a = Some (a, info)
  ∧ (state_a ≠ "" →
     ∀ args url endpoint,
       args !! "error" = None →
       args !! "state" = Some state_a →
       effects (callback_route args url endpoint (run ops w)).2
       = (effects (run ops w) ++ [FetchToken a (info !! "secret") state_a url])%list).
Proof.
  intros Hlive Hops.
  assert (live_session (run ops w) state_a = Some (a, info)) as Hlive'.
  { revert w Hlive Hops. induction ops as [ | o ops IH]; intros w Hlive Hops; [done|].
    destruct Hops as [Ho Hrest]. apply IH; [|done]. by apply foreign_operation. }
  split; [done|]. intros Hne args url endpoint He Hs.
  destruct (callback_route_fetches args url endpoint (run ops w) state_a a info
              He Hs Hne Hlive') as (r & w' & -> & _ & Heff & _).
  exact Heff.
Qed.

Lemma other_clients_do_not_interfere_witness :
  let authorization_url := λ c : string,
    ("https://www.fitbit.com/oauth2/authorize?client_id=" ++ c, "state-of-" ++ c) in
  let w := run [ Register "b" "old-b";
                 Auth {[ "client_id" := "b" ]} authorization_url;
                 Register "a" "sec-a";
                 Auth {[ "client_id" := "a" ]} authorization_url ] initial_world in
  let ops := [ Register "b" "sec-b";
               Callback {[ "state" := "state-of-b" ]}
                        "http://localhost:5000/callback?state=state-of-b"
                        (λ _ _ _ _, Token (JObj {[ "access_token" := JStr "stale" ]}));
               Auth {[ "client_id" := nbsp ++ "b" ]} authorization_url;
               Callback {[ "error" := "access_denied"; "state" := "state-of-a" ]}
                        "http://localhost:5000/callback?error=access_denied&state=state-of-a"
                        (λ _ _ _ _, FetchError "unused");
               Callback {[ "state" := "state-of-b" ]}
                        "http://localhost:5000/callback?state=state-of-b"
                        (λ _ _ _ _, Token (JObj {[ "access_token" := JStr "T" ]}));
               Register "c" "sec-c" ] in
  live_session (run ops w) "state-of-a"
  = Some ("a", {[ "secret" := "sec-a"; "state" := "state-of-a" ]}).
Proof.
  intros authorization_url w ops.
  apply (other_clients_do_not_interfere w "a" "state-of-a"
           {[ "secret" := "sec-a"; "state" := "state-of-a" ]} ops).
  - vm_compute. reflexivity.
  - vm_compute. repeat split; intros [=].
Defined.

End HandlerLaws.

(** * Properties of the desktop side *)

Section Desktop.

Implicit Types (p : process) (w : world) (net : network).
Implicit Types (client_id client_secret message : string).

Lemma append_nil_r (s : string) : s ++ "" = s.
Proof.
  induction s as [ | c s IH]; [done|].
  change (String c (s ++ "") = String c s). by rewrite IH.
Qed.

Lemma append_assoc (s1 s2 s3 : string) : (s1 ++ s2) ++ s3 = s1 ++ s2 ++ s3.
Proof.
  induction s1 as [ | c s1 IH]; [done|].
  change (String c ((s1 ++ s2) ++ s3) = String c (s1 ++ s2 ++ s3)). by rewrite IH.
Qed.

Lemma process_records_world records p :
  process_records records p
  = (PRet tt,
     set_window (Gui (client_id_var (window p)) (client_secret_var (window p))
                     (last_status records (status_var (window p)))
                     (log_text (window p) ++ log_lines records)
                     (dialogs (window p))) p).
Proof.
  revert p. induction records as [ | [event_type message] rest IH]; intros p.
  - destruct p as [w [] t n e r sl]. simpl. by rewrite append_nil_r.
  - cbn [process_records]. unfold mbind, P_bind.
    destruct (bool_decide (event_type = "status")) eqn:Hty;
      unfold set_status, log_message, pret, mret, P_ret, pmodify;
      rewrite IH; cbn [last_status log_lines]; rewrite Hty;
      destruct p as [w [] t n e r sl]; simpl; by rewrite !append_assoc.
Qed.

(** [process_log_queue] empties the queue into the window: every message
    goes to the log widget, one per line and in the order it was emitted;
    the status line shows the message of the last ["status"] record, and is
    not changed when there is none; the core is otherwise untouched. *)
Theorem process_log_queue_drains p records :
  gui_log_queue (core p) = Some records →
  ∃ p',
    process_log_queue p = (PRet tt, p')
    ∧ core p' = set_gui_log_queue (Some []) (core p)
    ∧ log_text (window p') = log_text (window p) ++ log_lines records
    ∧ status_var (window p') = last_status records (status_var (window p))
    ∧ dialogs (window p') = dialogs (window p)
    ∧ client_id_var (window p') = client_id_var (window p)
    ∧ client_secret_var (window p') = client_secret_var (window p).
Proof.
  intros Hq. unfold process_log_queue, mbind, P_bind, pgets. rewrite Hq.
  unfold pmodify. rewrite process_records_world.
  eexists. split; [reflexivity|]. by destruct p as [w [] t n e r sl].
Qed.

Lemma process_log_queue_drains_witness :
  let p := (lift_core (emit_log "uno" false) ;; lift_core (emit_log "dos" true) ;;
            lift_core (emit_log "tres" false))
             (AuthApp_init initial_world ∅) in
  ∃ p',
    process_log_queue p.2 = (PRet tt, p')
    ∧ gui_log_queue (core p') = Some []
    ∧ log_text (window p') = "uno" ++ String "010" "" ++ "dos" ++ String "010" ""
                             ++ "tres" ++ String "010" ""
    ∧ status_var (window p') = "dos".
Proof.
  intros p.
  destruct (process_log_queue_drains p.2
              [LogEvent "log" "uno"; LogEvent "status" "dos"; LogEvent "log" "tres"])
    as (p' & Hrun & Hcore & Hlog & Hstatus & _).
  - reflexivity.
  - exists p'. split; [exact Hrun|]. split; [by rewrite Hcore|].
    split; [exact Hlog | exact Hstatus].
Defined.

(** *** [trigger_authorization] *)

Lemma requests_get_run net client_id p :
  requests_get net client_id p
  = match net (requests_sent p) client_id (core p) with
    | (Ret a, w') => (PRet a, after_attempts 1 0 w' p)
    | (Raise e, w') => (PRaise (Core e), after_attempts 1 0 w' p)
    end.
Proof.
  unfold requests_get, mbind, P_bind, pgets, pmodify, lift_core, after_attempts, set_core.
  destruct p as [w g t n e r sl]. simpl.
  replace (r + 1)%nat with (S r) by lia. replace (sl + 0)%nat with sl by lia.
  by destruct (net r client_id w) as [[a | ex] w'].
Qed.

Lemma after_attempts_after a1 b1 a2 b2 w1 w2 p :
  after_attempts a2 b2 w2 (after_attempts a1 b1 w1 p)
  = after_attempts (a1 + a2) (b1 + b2) w2 p.
Proof. unfold after_attempts. simpl. f_equal; lia. Qed.

(** The loop over refused connections: [k] refusals use up [k] attempts, [k]
    requests and [k] pauses, and remember the last refusal. *)
Lemma trigger_loop_refused net client_id (excs : nat → string) k :
  ∀ attempts last p,
    (∀ i, (i < k)%nat → ∀ w,
       net (requests_sent p + i)%nat client_id w = (Ret (Refused (excs i)), w)) →
    trigger_loop net client_id (k + attempts) last p
    = trigger_loop net client_id attempts
        (match k with O => last | S k' => Some (excs k') end)
        (after_attempts k k (core p) p).
Proof.
  revert excs. induction k as [ | k IH]; intros excs attempts last p Hnet.
  - simpl. f_equal. unfold after_attempts. destruct p; simpl. f_equal; lia.
  - cbn [Nat.add trigger_loop]. unfold mbind at 1. unfold P_bind.
    rewrite requests_get_run.
    pose proof (Hnet 0%nat ltac:(lia) (core p)) as H0.
    rewrite Nat.add_0_r in H0. rewrite H0.
    unfold mbind, P_bind, sleep, pmodify.
    rewrite (IH (λ i, excs (S i))); cycle 1.
    { intros i Hi w. simpl.
      replace (requests_sent p + 1 + i)%nat with (requests_sent p + S i)%nat by lia.
      apply Hnet. lia. }
    f_equal.
    + by destruct k.
    + unfold after_attempts. simpl. f_equal; lia.
Qed.

Lemma trigger_authorization_retries_aux net client_id (excs : nat → string) k p :
  (∀ i, (i < k)%nat → ∀ w,
     net (requests_sent p + i)%nat client_id w = (Ret (Refused (excs i)), w)) →
  ((10 ≤ k)%nat →
   trigger_authorization net client_id p
   = (PRaise (ConnectionError (excs 9%nat)), after_attempts 10 10 (core p) p))
  ∧ ((k < 10)%nat →
     ∀ w',
       (∀ r,
          net (requests_sent p + k)%nat client_id (core p) = (Ret (Answered r), w') →
          trigger_authorization net client_id p
          = match response_body r with
            | Json payload => payload_message payload
            | Html text => pret (JStr text)
            end (after_attempts (S k) k w' p))
       ∧ (∀ exc,
            net (requests_sent p + k)%nat client_id (core p) = (Ret (Failed exc), w') →
            trigger_authorization net client_id p
            = (PRaise (RequestException exc), after_attempts (S k) k w' p))).
Proof.
  intros Hnet. unfold trigger_authorization. split.
  - intros Hk.
    assert (∀ i, (i < 10)%nat → ∀ w,
              net (requests_sent p + i)%nat client_id w = (Ret (Refused (excs i)), w))
      as Hten.
    { intros i Hi w. apply Hnet. lia. }
    pose proof (trigger_loop_refused net client_id excs 10 0 None p Hten) as Hloop.
    cbn [Nat.add] in Hloop. rewrite Hloop. reflexivity.
  - intros Hk w'.
    replace 10%nat with (k + S (9 - k))%nat by lia.
    rewrite (trigger_loop_refused net client_id excs k _ None p Hnet).
    cbn [trigger_loop]. unfold mbind at 1 3. unfold P_bind.
    rewrite !requests_get_run.
    assert (requests_sent (after_attempts k k (core p) p) = (requests_sent p + k)%nat)
      as -> by reflexivity.
    assert (core (after_attempts k k (core p) p) = core p) as -> by reflexivity.
    split.
    + intros r ->. rewrite after_attempts_after.
      replace (k + 1)%nat with (S k) by lia. replace (k + 0)%nat with k by lia.
      by destruct (response_body r).
    + intros exc ->. rewrite after_attempts_after.
      replace (k + 1)%nat with (S k) by lia. replace (k + 0)%nat with k by lia.
      reflexivity.
Qed.

(** The retry discipline of [trigger_authorization]. While the connection is
    refused it pauses and tries again, up to ten requests in all; after ten
    refusals it raises the last [ConnectionError]. The first request that is
    answered ends the loop with the message of the answer, and the first
    request that fails in another way ends it with that
    [RequestException]; no further request is sent. *)
Theorem trigger_authorization_retries net client_id (excs : nat → string) k p :
  (∀ i, (i < k)%nat → ∀ w,
     net (requests_sent p + i)%nat client_id w = (Ret (Refused (excs i)), w)) →
  ((10 ≤ k)%nat →
   trigger_authorization net client_id p
   = (PRaise (ConnectionError (excs 9%nat)), after_attempts 10 10 (core p) p))
  ∧ ((k < 10)%nat →
     ∀ w',
       (∀ r,
          net (requests_sent p + k)%nat client_id (core p) = (Ret (Answered r), w') →
          trigger_authorization net client_id p
          = match response_body r with
            | Json payload => payload_message payload
            | Html text => pret (JStr text)
            end (after_attempts (S k) k w' p))
       ∧ (∀ exc,
            net (requests_sent p + k)%nat client_id (core p) = (Ret (Failed exc), w') →
            trigger_authorization net client_id p
            = (PRaise (RequestException exc), after_attempts (S k) k w' p))).
Proof.
  intros Hnet.
  destruct (trigger_authorization_retries_aux net client_id excs k p Hnet)
    as [Hall Hsome].
  split; [exact Hall | exact Hsome].
Qed.

Lemma trigger_authorization_retries_witness :
  let authorization_url := λ _ : string, ("https://www.fitbit.com/oauth2/authorize", "st4t3") in
  let p := (lift_core (register_session "abc" "sec")
              (AuthApp_init initial_world ∅)).2 in
  (trigger_authorization (flask_server authorization_url 3) "abc" p).1
  = PRet (JStr "Autorización iniciada. Revisa el navegador.")
  ∧ requests_sent (trigger_authorization (flask_server authorization_url 3) "abc" p).2 = 4%nat
  ∧ sleeps (trigger_authorization (flask_server authorization_url 3) "abc" p).2 = 3%nat.
Proof.
  intros authorization_url p.
  assert (∀ i, (i < 3)%nat → ∀ w,
            flask_server authorization_url 3 (requests_sent p + i)%nat "abc" w
            = (Ret (Refused ((λ _, "Connection refused") i)), w)) as Hnet.
  { intros i Hi w. destruct i as [ | [ | [ | i]]]; [reflexivity | reflexivity | reflexivity | lia]. }
  destruct (trigger_authorization_retries (flask_server authorization_url 3) "abc"
              (λ _, "Connection refused") 3 p Hnet) as [_ Hanswer].
  destruct (Hanswer ltac:(lia)
              (flask_server authorization_url 3 3 "abc" (core p)).2) as [Hr _].
  rewrite (Hr (Response (jsonify "message" "Autorización iniciada. Revisa el navegador.") 200)
              eq_refl).
  repeat split.
Defined.

Lemma auth_route_bodies args authorization_url w :
  ∃ w',
    auth_route args authorization_url w
    = (Ret (Response (jsonify "message" "Autorización iniciada. Revisa el navegador.") 200),
       w')
    ∨ ∃ error, auth_route args authorization_url w
               = (Ret (Response (jsonify "error" error) 400), w').
Proof.
  unfold auth_route. destruct w as [q ses idx cf tf eff]. run_M.
  destruct (truthy (strip (default "" (args !! "client_id")))); simpl; cycle 1.
  { unfold emit_log, modify. destruct q; simpl; eauto. }
  destruct (ses !! strip (default "" (args !! "client_id"))) as [info | ]; cycle 1.
  { unfold emit_log, modify. destruct q; simpl; eauto. }
  destruct (truthy_dict info); cycle 1.
  { unfold emit_log, modify. destruct q; simpl; eauto. }
  destruct (authorization_url _) as [u st]. unfold emit_log, modify.
  destruct q; simpl; eauto.
Qed.

(** [trigger_authorization] against the [/auth] of this module. Once the
    server is reachable within the ten attempts, the request is handed to
    [auth_route] and the function returns normally in every case: the
    server's message when [/auth] answered 200, and the default
    ["Autorización iniciada."] when [/auth] answered 400, because the status
    code is not looked at and the error body has no ["message"] key. *)
Theorem trigger_authorization_against_auth authorization_url up_from client_id p :
  (requests_sent p ≤ up_from)%nat →
  (up_from < requests_sent p + 10)%nat →
  ∃ r w',
    auth_route {[ "client_id" := client_id ]} authorization_url (core p) = (Ret r, w')
    ∧ (status r = 200 ∨ status r = 400)
    ∧ trigger_authorization (flask_server authorization_url up_from) client_id p
      = (PRet (JStr (if bool_decide (status r = 200)
                     then "Autorización iniciada. Revisa el navegador."
                     else "Autorización iniciada.")),
         after_attempts (S (up_from - requests_sent p)) (up_from - requests_sent p) w' p).
Proof.
  intros Hlo Hhi. set (k := (up_from - requests_sent p)%nat).
  assert (∀ i, (i < k)%nat → ∀ w,
            flask_server authorization_url up_from (requests_sent p + i)%nat client_id w
            = (Ret (Refused ((λ _, "Connection refused") i)), w)) as Hnet.
  { intros i Hi w. unfold flask_server.
    destruct (Nat.ltb_spec (requests_sent p + i) up_from); [done | lia]. }
  destruct (trigger_authorization_retries_aux (flask_server authorization_url up_from)
              client_id (λ _, "Connection refused") k p Hnet) as [_ Hanswer].
  assert (∀ r w',
            auth_route {[ "client_id" := client_id ]} authorization_url (core p) = (Ret r, w') →
            flask_server authorization_url up_from (requests_sent p + k)%nat client_id (core p)
            = (Ret (Answered r), w')) as Hdeliver.
  { intros r w' Hauth. unfold flask_server.
    destruct (Nat.ltb_spec (requests_sent p + k) up_from); [lia|].
    unfold mbind, M_bind. by rewrite Hauth. }
  destruct (auth_route_bodies {[ "client_id" := client_id ]} authorization_url (core p))
    as [w' [Hauth | [error Hauth]]].
  - eexists _, w'. split; [exact Hauth|]. split; [by left|].
    destruct (Hanswer ltac:(lia) w') as [Hr _].
    rewrite (Hr _ (Hdeliver _ _ Hauth)). reflexivity.
  - eexists _, w'. split; [exact Hauth|]. split; [by right|].
    destruct (Hanswer ltac:(lia) w') as [Hr _].
    rewrite (Hr _ (Hdeliver _ _ Hauth)). reflexivity.
Qed.

Lemma trigger_authorization_against_auth_witness :
  let authorization_url := λ _ : string, ("https://www.fitbit.com/oauth2/authorize", "st4t3") in
  let p := AuthApp_init initial_world ∅ in
  ∃ r w',
    auth_route {[ "client_id" := "nobody" ]} authorization_url (core p) = (Ret r, w')
    ∧ status r = 400
    ∧ (trigger_authorization (flask_server authorization_url 2) "nobody" p).1
      = PRet (JStr "Autorización iniciada.").
Proof.
  intros authorization_url p.
  destruct (trigger_authorization_against_auth authorization_url 2 "nobody" p)
    as (r & w' & Hauth & _ & Htrigger).
  - simpl. lia.
  - simpl. lia.
  - exists r, w'. split; [exact Hauth|].
    vm_compute in Hauth. inversion Hauth; subst r.
    split; [reflexivity|]. rewrite Htrigger. reflexivity.
Defined.

(** *** [start_flask_server] *)

Lemma start_flask_server_world p :
  ∃ q n,
    start_flask_server p
    = (PRet tt,
       Process (set_gui_log_queue q (core p)) (window p) (Some true) n (environ p)
               (requests_sent p) (sleeps p))
    ∧ (server_thread p = Some true → q = gui_log_queue (core p) ∧ n = threads_started p)
    ∧ (server_thread p ≠ Some true → n = S (threads_started p)).
Proof.
  unfold start_flask_server, mbind, P_bind, pgets, pmodify, lift_core, emit_log, modify.
  destruct p as [[q ses idx cf tf eff] g [[ | ] | ] n e r sl]; simpl.
  - exists q, n. by repeat split.
  - destruct q; eexists _, _; (split; [reflexivity|]); by split.
  - destruct q; eexists _, _; (split; [reflexivity|]); by split.
Qed.

(** Starting the server is idempotent while the thread lives: a second call
    starts no thread and logs nothing, so two calls in a row leave the
    process exactly as one call does. *)
Theorem start_flask_server_idempotent p :
  (start_flask_server ;; start_flask_server) p = start_flask_server p.
Proof.
  unfold start_flask_server, mbind, P_bind, pgets, pmodify, lift_core, emit_log, modify.
  destruct p as [[q ses idx cf tf eff] g [[ | ] | ] n e r sl]; simpl;
    try reflexivity; by destruct q.
Qed.

(** *** [on_authenticate] *)

Lemma save_credentials_raise_unchanged client_id client_secret w e w' :
  save_credentials client_id client_secret w = (Raise e, w') → w' = w.
Proof.
  unfold save_credentials, ensure_json_file, raise. run_M.
  destruct w as [q ses idx cf tf eff]. simpl.
  destruct cf as [ | | v | why]; simpl; try done; [|by intros [= _ <-]].
  destruct v as [ | | | | | entries | ]; simpl; try (by intros [= _ <-]).
  destruct (save_credentials_loop client_id client_secret entries); simpl; [done|].
  by intros [= _ <-].
Qed.



(** A credential file of the wrong shape, or one that [json.load] cannot
    load, stops the button before anything else happens: the exception of
    [save_credentials] is no [OSError], so it leaves [on_authenticate], and
    no session is registered, no server started, no request sent and no
    message shown. *)
Theorem on_authenticate_bad_credential_file format net p client_id client_secret e w' :
  strip (client_id_var (window p)) = client_id →
  strip (client_secret_var (window p)) = client_secret →
  client_id ≠ "" →
  client_secret ≠ "" →
  save_credentials client_id client_secret (core p) = (Raise e, w') →
  on_authenticate format net p = (PRaise (Core e), p).
Proof.
  intros Hc Hs Hcne Hsne Hsave.
  pose proof (save_credentials_raise_unchanged _ _ _ _ _ Hsave) as ->.
  unfold on_authenticate, mbind, P_bind, pgets. rewrite Hc, Hs.
  rewrite (truthy_true _ Hcne), (truthy_true _ Hsne). cbn [negb orb].
  unfold lift_core. rewrite Hsave. by destruct p.
Qed.

Lemma on_authenticate_bad_credential_file_witness :
  let p := set_window (Gui (nbsp ++ "abc") ("sec" ++ nbsp)
                           "Ingresa tu Client ID y Client Secret." "" [])
             (AuthApp_init (set_credentials_file (Holds (JObj ∅)) initial_world) ∅) in
  on_authenticate (λ _, "") (λ _ _, mret (Refused "unused")) p
  = (PRaise (Core AttributeError), p).
Proof.
  intros p.
  apply (on_authenticate_bad_credential_file (λ _, "") (λ _ _, mret (Refused "unused")) p
           "abc" "sec" AttributeError (core p)).
  - reflexivity.
  - reflexivity.
  - discriminate.
  - discriminate.
  - reflexivity.
Defined.

Lemma save_credentials_ret_world client_id client_secret w w1 :
  save_credentials client_id client_secret w = (Ret tt, w1) →
  w1 = set_credentials_file (credentials_file w1) w.
Proof.
  unfold save_credentials, ensure_json_file, raise. run_M.
  destruct w as [q ses idx cf tf eff]. simpl.
  destruct cf as [ | | v | why]; simpl; try (by intros [= <-]); try done.
  destruct v as [ | | | | | entries | ]; simpl; try done.
  destruct (save_credentials_loop client_id client_secret entries); simpl; [|done].
  by intros [= <-].
Qed.

Lemma trigger_authorization_delivered authorization_url up_from client_id p r w' :
  (requests_sent p ≤ up_from)%nat →
  (up_from < requests_sent p + 10)%nat →
  auth_route {[ "client_id" := client_id ]} authorization_url (core p) = (Ret r, w') →
  trigger_authorization (flask_server authorization_url up_from) client_id p
  = match response_body r with
    | Json payload => payload_message payload
    | Html text => pret (JStr text)
    end (after_attempts (S (up_from - requests_sent p)) (up_from - requests_sent p) w' p).
Proof.
  intros Hlo Hhi Hauth. set (k := (up_from - requests_sent p)%nat).
  assert (∀ i, (i < k)%nat → ∀ w,
            flask_server authorization_url up_from (requests_sent p + i)%nat client_id w
            = (Ret (Refused ((λ _, "Connection refused") i)), w)) as Hnet.
  { intros i Hi w. unfold flask_server.
    destruct (Nat.ltb_spec (requests_sent p + i) up_from); [done | lia]. }
  destruct (trigger_authorization_retries_aux (flask_server authorization_url up_from)
              client_id (λ _, "Connection refused") k p Hnet) as [_ Hanswer].
  destruct (Hanswer ltac:(lia) w') as [Hr _]. apply Hr.
  unfold flask_server. destruct (Nat.ltb_spec (requests_sent p + k) up_from); [lia|].
  unfold mbind, M_bind. by rewrite Hauth.
Qed.

(** The button up to the request: credentials saved, session registered,
    environment set, server started, status line set. *)
Lemma on_authenticate_started format net p client_id client_secret w1 :
  strip (client_id_var (window p)) = client_id →
  strip (client_secret_var (window p)) = client_secret →
  client_id ≠ "" →
  client_secret ≠ "" →
  save_credentials client_id client_secret (core p) = (Ret tt, w1) →
  ∃ q n,
    on_authenticate format net p
    = (started ← except_RequestException
         (message ← trigger_authorization net client_id;
          log_message (format message) ;;
          pret true)
         (λ exc,
            show (ShowError "Autenticación" ("Error al iniciar la autorización: " ++ exc)) ;;
            log_message ("Error al iniciar la autorización: " ++ exc) ;;
            pret false);
       match started with
       | true => set_status "Autoriza el acceso en el navegador."
       | false => pret tt
       end)
        (Process (set_gui_log_queue q (register_session client_id client_secret w1).2)
                 (Gui (client_id_var (window p)) (client_secret_var (window p))
                      "Iniciando autorización..." (log_text (window p)) (dialogs (window p)))
                 (Some true) n
                 (<["OAUTHLIB_INSECURE_TRANSPORT" := "1"]> (environ p))
                 (requests_sent p) (sleeps p)).
Proof.
  intros Hc Hs Hcne Hsne Hsave.
  unfold on_authenticate. unfold mbind at 1 2. unfold P_bind at 1 2. unfold pgets.
  rewrite Hc, Hs, (truthy_true _ Hcne), (truthy_true _ Hsne). cbn [negb orb].
  unfold mbind at 1. unfold P_bind at 1. unfold lift_core at 1. rewrite Hsave.
  unfold mbind at 1. unfold P_bind at 1. unfold lift_core at 1.
  rewrite register_session_world. cbn [core set_core].
  unfold mbind at 1. unfold P_bind at 1. unfold pmodify at 1.
  unfold mbind at 1. unfold P_bind at 1.
  match goal with
  | |- context [start_flask_server ?p0] =>
      destruct (start_flask_server_world p0) as (q & n & -> & _)
  end.
  unfold mbind at 1. unfold P_bind at 1. unfold set_status at 1. unfold pmodify at 1.
  exists q, n. destruct p as [w g t m e r sl]. reflexivity.
Qed.

(** The button on the good path. With a client id and a secret typed in, a
    credential file that can be saved to, and the server of this module
    reachable within the ten attempts: the credentials are saved, the
    session is registered and has been given the state generated by
    [/auth], which resolves to the client id and the secret typed in; the
    browser has been opened once; the log shows the server's message and
    the status line asks the user to authorize in the browser; no message
    box is shown. *)
Theorem on_authenticate_starts_flow format authorization_url up_from p
    client_id client_secret w1 url state :
  (∀ message, format (JStr message) = message) →
  strip (client_id_var (window p)) = client_id →
  strip (client_secret_var (window p)) = client_secret →
  client_id ≠ "" →
  client_secret ≠ "" →
  save_credentials client_id client_secret (core p) = (Ret tt, w1) →
  (requests_sent p ≤ up_from)%nat →
  (up_from < requests_sent p + 10)%nat →
  authorization_url client_id = (url, state) →
  ∃ p',
    on_authenticate format (flask_server authorization_url up_from) p = (PRet tt, p')
    ∧ status_var (window p') = "Autoriza el acceso en el navegador."
    ∧ log_text (window p')
      = log_text (window p) ++ "Autorización iniciada. Revisa el navegador."
                            ++ String "010" ""
    ∧ dialogs (window p') = dialogs (window p)
    ∧ live_session (core p') state
      = Some (client_id, {[ "secret" := client_secret; "state" := state ]})
    ∧ effects (core p') = (effects (core p) ++ [OpenBrowser url])%list
    ∧ credentials_file (core p') = credentials_file w1
    ∧ tokens_file (core p') = tokens_file (core p)
    ∧ environ p' !! "OAUTHLIB_INSECURE_TRANSPORT" = Some "1"
    ∧ server_thread p' = Some true
    ∧ requests_sent p' = S up_from.
Proof.
  intros Hformat Hc Hs Hcne Hsne Hsave Hlo Hhi Hurl.
  destruct (on_authenticate_started format (flask_server authorization_url up_from) p
              client_id client_secret w1 Hc Hs Hcne Hsne Hsave) as (q & n & ->).
  set (p5 := Process _ _ _ _ _ _ _).
  assert (strip (default "" (({[ "client_id" := client_id ]} : gmap string string)
                               !! "client_id")) = client_id) as Hstrip.
  { rewrite lookup_singleton_eq. simpl. rewrite <- Hc. apply strip_idempotent. }
  destruct (auth_route_assigns {[ "client_id" := client_id ]} authorization_url (core p5)
              client_id {[ "secret" := client_secret ]} url state Hstrip Hcne)
    as [q' Hauth]; [apply lookup_insert_eq | apply map_non_empty_singleton | done | ].
  pose proof (trigger_authorization_delivered authorization_url up_from client_id p5 _ _
                Hlo Hhi Hauth) as Htrigger.
  cbn [response_body jsonify payload_message] in Htrigger.
  rewrite lookup_singleton_eq in Htrigger. cbn [default] in Htrigger.
  unfold pret, mret, P_ret, id in Htrigger.
  unfold mbind at 1. unfold P_bind at 1. unfold except_RequestException.
  unfold mbind at 1. unfold P_bind at 1. rewrite Htrigger. cbv beta iota.
  rewrite Hformat.
  unfold mbind, P_bind, log_message, set_status, pmodify, pret, mret, P_ret.
  cbv beta iota.
  assert (effects w1 = effects (core p) ∧ tokens_file w1 = tokens_file (core p))
    as [Heff Htok].
  { rewrite (save_credentials_ret_world _ _ _ _ Hsave). by destruct (core p). }
  eexists. split; [reflexivity|].
  cbn. destruct p as [[q0 ses idx cf tf eff] g t m e r sl]. cbn in *.
  change (effects (register_session client_id client_secret w1).2) with (effects w1).
  change (tokens_file (register_session client_id client_secret w1).2)
    with (tokens_file w1).
  change (credentials_file (register_session client_id client_secret w1).2)
    with (credentials_file w1).
  rewrite Heff, Htok.
  split; [done|]. split; [done|]. split; [done|].
  split.
  { apply live_session_intro; cbn.
    - apply lookup_insert_eq.
    - done.
    - rewrite lookup_insert_eq. apply (f_equal Some).
      apply map_eq. intros key.
      destruct (decide (key = "state")) as [-> | Hk1].
      { rewrite lookup_insert_eq, lookup_insert_ne by done. by rewrite lookup_singleton_eq. }
      rewrite lookup_insert_ne by done.
      destruct (decide (key = "secret")) as [-> | Hk2].
      { by rewrite lookup_singleton_eq, lookup_insert_eq. }
      rewrite lookup_insert_ne by done. by rewrite !lookup_singleton_ne.
    - apply insert_non_empty. }
  split; [done|]. split; [done|]. split; [done|].
  split; [apply lookup_insert_eq|]. split; [done|]. lia.
Qed.

Lemma on_authenticate_starts_flow_witness :
  let format := λ v : json, match v with JStr text => text | _ => "" end in
  let authorization_url := λ c : string,
    ("https://www.fitbit.com/oauth2/authorize?client_id=" ++ c, "st4t3") in
  let p := set_window (Gui (nbsp ++ "abc ") ("sec" ++ ideographic_space)
                           "Ingresa tu Client ID y Client Secret." "" [])
             (AuthApp_init initial_world ∅) in
  ∃ p',
    on_authenticate format (flask_server authorization_url 3) p = (PRet tt, p')
    ∧ status_var (window p') = "Autoriza el acceso en el navegador."
    ∧ live_session (core p') "st4t3"
      = Some ("abc", {[ "secret" := "sec"; "state" := "st4t3" ]})
    ∧ effects (core p')
      = [OpenBrowser "https://www.fitbit.com/oauth2/authorize?client_id=abc"]
    ∧ requests_sent p' = 4%nat.
Proof.
  intros format authorization_url p.
  destruct (on_authenticate_starts_flow format authorization_url 3 p "abc" "sec"
              (save_credentials "abc" "sec" (core p)).2
              "https://www.fitbit.com/oauth2/authorize?client_id=abc" "st4t3")
    as (p' & Hrun & Hstatus & _ & _ & Hlive & Heff & _ & _ & _ & _ & Hsent).
  - intros message. reflexivity.
  - reflexivity.
  - reflexivity.
  - discriminate.
  - discriminate.
  - reflexivity.
  - simpl. lia.
  - simpl. lia.
  - reflexivity.
  - exists p'. split; [exact Hrun|]. split; [exact Hstatus|]. split; [exact Hlive|].
    split; [exact Heff | exact Hsent].
Defined.



End Desktop.
